(** * WhatsApp bridge service: a shallow embedding of
    [server/src/services/whatsapp.ts] and the properties of its identity
    resolver, command dispatcher, session supervisor and message router. *)

From Stdlib Require Import String Ascii ZArith NArith Bool Lia DecimalString List.
Import ListNotations.
Local Open Scope list_scope.

(* ================================================================= *)
(** ** JavaScript strings *)

(** A JavaScript string is a sequence of UTF-16 code units.  The string
    methods the service calls are transcribed on that representation. *)
Module Js.

Definition char16 := N.
Definition jsstring := list char16.

(** An ASCII literal of the source text. *)
Definition lit (s : string) : jsstring :=
  map N_of_ascii (list_ascii_of_string s).
Arguments lit s%_string.

Definition colon : char16 := 58%N.
Definition at_sign : char16 := 64%N.

(** Truthiness of a string: [''] is the only falsy string. *)
Definition truthy (s : jsstring) : bool :=
  match s with [] => false | _ :: _ => true end.

(** [a || b] on strings. *)
Definition or_else (a b : jsstring) : jsstring :=
  if truthy a then a else b.

(** [s.startsWith(pat)] *)
Fixpoint startsWith (pat s : jsstring) : bool :=
  match pat, s with
  | [], _ => true
  | _ :: _, [] => false
  | p :: pat', c :: s' => N.eqb p c && startsWith pat' s'
  end.

(** [s.endsWith(suf)] *)
Definition endsWith (suf s : jsstring) : bool :=
  startsWith (rev suf) (rev s).

(** [s.includes(pat)] *)
Fixpoint includes (pat s : jsstring) : bool :=
  startsWith pat s ||
  match s with
  | [] => false
  | _ :: s' => includes pat s'
  end.

(** [s.replace(pat, rep)] with a string pattern: only the first
    occurrence of [pat] is replaced. *)
Fixpoint replace (pat rep s : jsstring) {struct s} : jsstring :=
  if startsWith pat s then rep ++ skipn (length pat) s
  else match s with
       | [] => []
       | c :: s' => c :: replace pat rep s'
       end.

(** [s.split(sep)] for a separator of one code unit (both call sites
    split on one character). *)
Fixpoint split (sep : char16) (s : jsstring) : list jsstring :=
  match s with
  | [] => [[]]
  | c :: s' =>
      if N.eqb c sep then [] :: split sep s'
      else match split sep s' with
           | p :: ps => (c :: p) :: ps
           | [] => [[c]]
           end
  end.

(** [s.split(sep)[0]] *)
Definition split0 (sep : char16) (s : jsstring) : jsstring :=
  hd [] (split sep s).

(** White space and line terminators, as [String.prototype.trim]
    understands them. *)
Definition isWhiteSpace (c : char16) : bool :=
  existsb (N.eqb c)
    [9; 10; 11; 12; 13; 32; 160; 5760; 8232; 8233; 8239; 8287; 12288; 65279]%N
  || (N.leb 8192 c && N.leb c 8202).

Fixpoint trimStart (s : jsstring) : jsstring :=
  match s with
  | [] => []
  | c :: s' => if isWhiteSpace c then trimStart s' else s
  end.

Definition trimEnd (s : jsstring) : jsstring := rev (trimStart (rev s)).

(** [s.trim()] *)
Definition trim (s : jsstring) : jsstring := trimEnd (trimStart s).

(** [a === b] on strings. *)
Fixpoint eqb (a b : jsstring) : bool :=
  match a, b with
  | [], [] => true
  | x :: a', y :: b' => N.eqb x y && eqb a' b'
  | _, _ => false
  end.

(** A value that may be [null] or [undefined], read as a condition. *)
Definition truthy_opt (o : option jsstring) : bool :=
  match o with Some s => truthy s | None => false end.

(** [o || b] where [o] may be [null] or [undefined]. *)
Definition opt_or_else (o : option jsstring) (b : jsstring) : jsstring :=
  match o with Some s => or_else s b | None => b end.

(** [s.substring(0, n)] *)
Definition substring0 (n : nat) (s : jsstring) : jsstring := firstn n s.

(** [String(b)] for a boolean. *)
Definition of_bool (b : bool) : jsstring :=
  if b then lit "true" else lit "false".

(** [String(z)] for an integer. *)
Definition of_Z (z : Z) : jsstring :=
  lit (NilZero.string_of_int (Z.to_int z)).

(** [arr.splice(start, deleteCount, ...items)], the array after the call. *)
Definition splice {A} (arr : list A) (start deleteCount : nat) (items : list A)
  : list A :=
  firstn start arr ++ items ++ skipn (start + deleteCount) arr.

End Js.
Import Js.

(* ================================================================= *)
(** ** Identity resolver *)

Definition direct_suffix : jsstring := lit "@s.whatsapp.net".
Definition lid_suffix : jsstring := lit "@lid".
Definition group_marker : jsstring := lit "@g.us".

(** The value of [phone] in [handleMessage] once the two address forms
    have been tried; [None] is the initial [null]. *)
Definition resolve_phone (jid : jsstring) : option jsstring :=
  if endsWith direct_suffix jid then
    Some (split0 colon (replace direct_suffix [] jid))
  else if endsWith lid_suffix jid then
    Some (replace lid_suffix [] jid)
  else None.

(** The resolver as the specification words it: the suffix is removed
    from the end of the address, then the text from the first colon on. *)
Definition strip_suffix (suf s : jsstring) : jsstring :=
  firstn (length s - length suf) s.

Definition resolve_direct_spec (jid : jsstring) : jsstring :=
  split0 colon (strip_suffix direct_suffix jid).

(** The suffix text occurs in the address at its end only. *)
Definition occurs_only_at_end (suf s : jsstring) : bool :=
  negb (includes suf (removelast s)).

Definition twice_suffixed : jsstring := lit "1@s.whatsapp.net2@s.whatsapp.net".

(* ================================================================= *)
(** ** Command dispatcher: the argument list *)

Definition systemPrompt (phone userId : jsstring) : jsstring :=
  lit "You are a helpful assistant providing status updates on projects via WhatsApp.
You have access to project-manager MCP tools to check project status, sessions, and activity.

When asked about projects:
- Use get_project_status to check specific project activity
- Use list_projects to see all available projects
- Use search_memory to find relevant information

Keep responses concise for WhatsApp (under 1000 chars when possible).
Use plain text formatting, no markdown.

User ID: " ++ userId ++ lit "
Phone: " ++ phone.

(** [args] as passed to [spawn]: the literal array, then the [splice]
    when [mcpConfigPath] is truthy. *)
Definition spawn_args (prompt question mcpConfigPath : jsstring) : list jsstring :=
  let args :=
    [ lit "--print";
      lit "--model"; lit "sonnet";
      lit "--dangerously-skip-permissions";
      lit "--system-prompt"; prompt;
      lit "--max-turns"; lit "5";
      lit "--"; question ] in
  if truthy mcpConfigPath
  then splice args 4 0 [lit "--mcp-config"; mcpConfigPath]
  else args.

(** The argument list in the order the interface description gives it. *)
Definition spawn_args_spec (prompt question mcpConfigPath : jsstring) : list jsstring :=
  [ lit "--print";
    lit "--model"; lit "sonnet";
    lit "--dangerously-skip-permissions";
    lit "--system-prompt"; prompt;
    lit "--max-turns"; lit "5" ]
  ++ (if truthy mcpConfigPath then [lit "--mcp-config"; mcpConfigPath] else [])
  ++ [ lit "--"; question ].


(* ================================================================= *)
(** ** Data model *)

(** A thrown value: an [Error] with its message. *)
Record JsError := mkError { message : jsstring }.

(** How a call that may throw (or a promise that may reject) ends. *)
Inductive Outcome (A : Type) : Type :=
| Returned (a : A)
| Threw (e : JsError).
Arguments Returned {A} a.
Arguments Threw {A} e.

(** Handles of objects owned by collaborators. *)
Definition Socket := nat.
Definition Callback := nat.
Definition AuthState := nat.

Record WhatsAppStatus := mkStatus {
  connected : bool;
  phoneNumber : option jsstring;
  status_qrCode : option jsstring
}.

(** The fields of [WhatsAppService]. *)
Record Svc := mkSvc {
  socket : option Socket;
  status : WhatsAppStatus;
  qrCode : option jsstring;
  initializing : bool;
  onUserLookup : option Callback;
  onGetMcpConfig : option Callback
}.

Definition initial_status : WhatsAppStatus := mkStatus false None None.

(** The service as constructed. *)
Definition new_service : Svc :=
  mkSvc None initial_status None false None None.

Definition set_socket (v : option Socket) (s : Svc) : Svc :=
  mkSvc v (status s) (qrCode s) (initializing s) (onUserLookup s) (onGetMcpConfig s).
Definition set_status (v : WhatsAppStatus) (s : Svc) : Svc :=
  mkSvc (socket s) v (qrCode s) (initializing s) (onUserLookup s) (onGetMcpConfig s).
Definition set_qrCode (v : option jsstring) (s : Svc) : Svc :=
  mkSvc (socket s) (status s) v (initializing s) (onUserLookup s) (onGetMcpConfig s).
Definition set_initializing (v : bool) (s : Svc) : Svc :=
  mkSvc (socket s) (status s) (qrCode s) v (onUserLookup s) (onGetMcpConfig s).
Definition set_onUserLookup (v : option Callback) (s : Svc) : Svc :=
  mkSvc (socket s) (status s) (qrCode s) (initializing s) v (onGetMcpConfig s).
Definition set_onGetMcpConfig (v : option Callback) (s : Svc) : Svc :=
  mkSvc (socket s) (status s) (qrCode s) (initializing s) (onUserLookup s) v.

Definition set_connected (v : bool) (t : WhatsAppStatus) : WhatsAppStatus :=
  mkStatus v (phoneNumber t) (status_qrCode t).
Definition set_phoneNumber (v : option jsstring) (t : WhatsAppStatus) : WhatsAppStatus :=
  mkStatus (connected t) v (status_qrCode t).

(** What the authorization lookup resolves to when it finds a user. *)
Record AuthResult := mkAuth { userId : jsstring; projectId : jsstring }.

(** The part of [proto.IWebMessageInfo] the router reads. *)
Record MessageKey := mkKey { remoteJid : option jsstring; fromMe : bool }.
Record MessageContent := mkContent {
  conversation : option jsstring;
  extendedText : option jsstring
}.
Record WebMessageInfo := mkMsg { key : MessageKey; content : option MessageContent }.

(** The payload of a [connection.update] event. *)
Inductive Connection := ConnClose | ConnOpen | ConnConnecting.
Record DisconnectError := mkDisconnectError {
  error_message : option jsstring;
  statusCode : option Z
}.
Record ConnectionUpdate := mkUpdate {
  connection : option Connection;
  lastDisconnect_error : option DisconnectError;
  qr : option jsstring
}.

Inductive Presence := Composing | Paused.

(** What the child process delivers before the two-minute timer is due,
    in order of arrival. *)
Inductive ChildEvent :=
| StdoutData (data : jsstring)
| StderrData (data : jsstring)
| Close (code : option Z)
| Error (err : JsError).

Inductive TimerCallback := CbInitialize | CbKillAndReject.
Inductive Listener := LSaveCreds | LConnectionUpdate | LMessagesUpsert.

(** Actions on the outside world that return nothing the code uses. *)
Inductive Effect :=
| ConsoleLog (text : jsstring)
| ConsoleError (text : jsstring) (err : JsError)
| Emit (event : jsstring) (payload : option jsstring)
| EvOn (s : Socket) (event : jsstring) (l : Listener)
| ChildOn (event : jsstring)
| SetTimeout (cb : TimerCallback) (ms : Z)
| ChildKill
| PromiseResolve (value : jsstring)
| PromiseReject (reason : JsError).

(** Calls whose result the code uses, or awaits.  [ChildEvents] is the
    wait for the dispatch promise; [Yield] is an [await] of a value that
    is no promise: the method resumes after the handlers already queued. *)
Inductive Request :=
| AuthDirExists
| AuthDirMkdir
| UseMultiFileAuthState
| MakeWASocket (auth : AuthState)
| SocketUser (s : Socket)
| SocketLogout (s : Socket)
| UserLookup (fn : Callback) (phone : jsstring)
| McpConfigGenerator (fn : Callback)
| PresenceSubscribe (s : Socket) (jid : jsstring)
| SendPresenceUpdate (s : Socket) (p : Presence) (jid : jsstring)
| SocketSendMessage (s : Socket) (jid text : jsstring)
| ProcessEnvHome
| Spawn (command : jsstring) (args : list jsstring) (home user_id : jsstring)
| ChildEvents
| Yield.

Definition Resp (r : Request) : Type :=
  match r with
  | AuthDirExists => bool
  | AuthDirMkdir => Outcome unit
  | UseMultiFileAuthState => Outcome AuthState
  | MakeWASocket _ => Outcome Socket
  | SocketUser _ => option jsstring
  | SocketLogout _ => Outcome unit
  | UserLookup _ _ => Outcome (option AuthResult)
  | McpConfigGenerator _ => Outcome jsstring
  | PresenceSubscribe _ _ => Outcome unit
  | SendPresenceUpdate _ _ _ => Outcome unit
  | SocketSendMessage _ _ _ => Outcome unit
  | ProcessEnvHome => option jsstring
  | Spawn _ _ _ _ => Outcome unit
  | ChildEvents => list ChildEvent
  | Yield => unit
  end.

(* ================================================================= *)
(** ** Programs over the service *)

(** A method body: reads and writes of the fields, effects, and calls
    answered by the rest of the system. *)
Inductive Prog (R : Type) : Type :=
| Ret (r : R)
| Get (k : Svc -> Prog R)
| Put (s : Svc) (k : Prog R)
| Do (e : Effect) (k : Prog R)
| Call (r : Request) (k : Resp r -> Prog R).
Arguments Ret {R} r.
Arguments Get {R} k.
Arguments Put {R} s k.
Arguments Do {R} e k.
Arguments Call {R} r k.

Fixpoint pbind {A B} (p : Prog A) (f : A -> Prog B) : Prog B :=
  match p with
  | Ret a => f a
  | Get k => Get (fun s => pbind (k s) f)
  | Put s k => Put s (pbind k f)
  | Do e k => Do e (pbind k f)
  | Call r k => Call r (fun x => pbind (k x) f)
  end.

(** Method bodies that may throw. *)
Definition M (A : Type) : Type := Prog (Outcome A).

Definition ret {A} (a : A) : M A := Ret (Returned a).
Definition throw {A} (e : JsError) : M A := Ret (Threw e).

Definition bind {A B} (p : M A) (f : A -> M B) : M B :=
  pbind p (fun o => match o with
                    | Returned a => f a
                    | Threw e => Ret (Threw e)
                    end).

(** [try { p } catch (err) { h err }] *)
Definition try_catch {A} (p : M A) (h : JsError -> M A) : M A :=
  pbind p (fun o => match o with
                    | Returned a => ret a
                    | Threw e => h e
                    end).

Declare Scope prog_scope.
Delimit Scope prog_scope with prog.
Notation "x <- p ;; q" := (bind p (fun x => q))
  (at level 61, p at next level, right associativity) : prog_scope.
Notation "p ;; q" := (bind p (fun _ => q))
  (at level 61, right associativity) : prog_scope.
Local Open Scope prog_scope.

Definition get : M Svc := Get (fun s => ret s).
Definition modify (f : Svc -> Svc) : M unit := Get (fun s => Put (f s) (ret tt)).
Definition perform (e : Effect) : M unit := Do e (ret tt).
Fixpoint perform_all (es : list Effect) : M unit :=
  match es with
  | [] => ret tt
  | e :: es' => Do e (perform_all es')
  end.
(** A call that cannot throw. *)
Definition ask (r : Request) : M (Resp r) := Call r (fun x => ret x).
(** A call that may throw; for an awaited promise, one that may reject:
    the answer is the outcome. *)
Definition call (r : Request) : Prog (Resp r) := Call r (fun x => Ret x).

(** What happened during a run, in order.  A call is recorded with its
    answer and with the fields of the service as the caller finds them
    when it resumes: while a call is awaited other handlers run. *)
Inductive Event :=
| EvDo (e : Effect)
| EvCall (r : Request) (answer : Resp r) (resumed : Svc).

(** What a run leaves behind: the value returned, the fields of the
    service, the state of the rest of the system, and the events. *)
Record Ran (W R : Type) := mkRan {
  result : R;
  final : Svc;
  world : W;
  trace : list Event
}.
Arguments mkRan {W R}.
Arguments result {W R}.
Arguments final {W R}.
Arguments world {W R}.
Arguments trace {W R}.

Section Run.
(** The rest of the system, with a state [W] of its own: it answers
    each call and may change the fields of the service meanwhile. *)
Context {W : Type}.
Definition Env := forall r : Request, Svc -> W -> Resp r * Svc * W.
Variable env : Env.

Fixpoint run {R} (p : Prog R) (st : Svc) (w : W) : Ran W R :=
  match p with
  | Ret r => mkRan r st w []
  | Get k => run (k st) st w
  | Put s k => run k s w
  | Do e k =>
      let x := run k st w in
      mkRan (result x) (final x) (world x) (EvDo e :: trace x)
  | Call c k =>
      let a := env c st w in
      let x := run (k (fst (fst a))) (snd (fst a)) (snd a) in
      mkRan (result x) (final x) (world x)
            (EvCall c (fst (fst a)) (snd (fst a)) :: trace x)
  end.
End Run.

(* ================================================================= *)
(** ** Command dispatcher: [askClaude] *)

(** The two strings the stream listeners accumulate. *)
Record Buffers := mkBuffers { stdout : jsstring; stderr : jsstring }.

Definition timeout_ms : Z := 120000.

(** [`${code}`]: the exit code, or [null] when a signal ended the child. *)
Definition of_code (code : option Z) : jsstring :=
  match code with Some z => of_Z z | None => lit "null" end.

Definition code_is_zero (code : option Z) : bool :=
  match code with Some z => Z.eqb z 0 | None => false end.

(** The [close] listener. *)
Definition on_close (b : Buffers) (code : option Z) : Outcome jsstring :=
  if code_is_zero code && truthy (trim (stdout b))
  then Returned (trim (stdout b))
  else Threw (mkError
                (or_else (stderr b) (lit "Claude exited with code " ++ of_code code))).

Definition timed_out : Outcome jsstring :=
  Threw (mkError (lit "Request timed out")).

(** [resolve(v)] or [reject(e)]. *)
Definition settle (o : Outcome jsstring) : Effect :=
  match o with
  | Returned v => PromiseResolve v
  | Threw e => PromiseReject e
  end.

(** The callback of the timer: [child.kill()], then [reject]. *)
Definition timer_callback : list Effect := [ChildKill; settle timed_out].

(** The life of the promise.  [before]: what the listeners and the timer
    do up to and including the call that settles it; [outcome]: what it
    settles to, which is when the awaiting caller resumes; [after]: what
    the listeners and the timer still do once it is settled.  A
    [resolve] or [reject] in [after] finds the promise settled and
    changes nothing. *)
Record Promise := mkPromise {
  before : list Effect;
  outcome : Outcome jsstring;
  after : list Effect
}.

(** The listeners and the timer once the promise is settled.  No
    listener is removed and the timer is never cleared: the events that
    still precede the timer are handled as before, and then the timer
    fires. *)
Fixpoint late (b : Buffers) (evs : list ChildEvent) : list Effect :=
  match evs with
  | [] => timer_callback
  | StdoutData d :: evs' => late (mkBuffers (stdout b ++ d) (stderr b)) evs'
  | StderrData d :: evs' => late (mkBuffers (stdout b) (stderr b ++ d)) evs'
  | Close code :: evs' => settle (on_close b code) :: late b evs'
  | Error err :: evs' => settle (Threw err) :: late b evs'
  end.

(** The listeners and the timer at work on [evs], the events of the
    child that precede the timer, in order of arrival.  The first
    [close] or [error] settles the promise; when none arrives the timer
    does. *)
Fixpoint promise_run (b : Buffers) (evs : list ChildEvent) : Promise :=
  match evs with
  | [] => mkPromise timer_callback timed_out []
  | StdoutData d :: evs' => promise_run (mkBuffers (stdout b ++ d) (stderr b)) evs'
  | StderrData d :: evs' => promise_run (mkBuffers (stdout b) (stderr b ++ d)) evs'
  | Close code :: evs' =>
      mkPromise [settle (on_close b code)] (on_close b code) (late b evs')
  | Error err :: evs' =>
      mkPromise [settle (Threw err)] (Threw err) (late b evs')
  end.

(** A throw in the body of the [async] function, or in the executor of
    its promise, rejects the promise the caller awaits. *)
Definition rejecting {A} (p : M A) : M A :=
  try_catch p (fun e => perform (PromiseReject e) ;; throw e).

Definition empty_buffers : Buffers := mkBuffers [] [].

Definition askClaude (question phone userId : jsstring) : M jsstring :=
  let prompt := systemPrompt phone userId in
  st <- get ;;
  mcpConfigPath <- match onGetMcpConfig st with
                   | Some g => rejecting (call (McpConfigGenerator g))
                   | None => ret []
                   end ;;
  let args := spawn_args prompt question mcpConfigPath in
  home <- ask ProcessEnvHome ;;
  rejecting
    (call (Spawn (lit "claude") args (opt_or_else home (lit "/home/claude")) userId)) ;;
  perform (ChildOn (lit "stdout data")) ;;
  perform (ChildOn (lit "stderr data")) ;;
  perform (ChildOn (lit "close")) ;;
  perform (ChildOn (lit "error")) ;;
  perform (SetTimeout CbKillAndReject timeout_ms) ;;
  evs <- ask ChildEvents ;;
  perform_all (before (promise_run empty_buffers evs)) ;;
  Ret (outcome (promise_run empty_buffers evs)).

(* ================================================================= *)
(** ** Message router *)

Definition sendMessage (jid text : jsstring) : M unit :=
  st <- get ;;
  match socket st with
  | None => ret tt
  | Some s => call (SocketSendMessage s jid text)
  end.

(** [await this.socket?.presenceSubscribe(jid)] *)
Definition presenceSubscribe (jid : jsstring) : M unit :=
  st <- get ;;
  match socket st with
  | None => ask Yield
  | Some s => call (PresenceSubscribe s jid)
  end.

(** [await this.socket?.sendPresenceUpdate(p, jid)] *)
Definition sendPresenceUpdate (p : Presence) (jid : jsstring) : M unit :=
  st <- get ;;
  match socket st with
  | None => ask Yield
  | Some s => call (SendPresenceUpdate s p jid)
  end.

Definition registration_message (phone : jsstring) : jsstring :=
  lit "Your ID is not registered.

Your WhatsApp ID: " ++ phone ++ lit "

Go to Settings > WhatsApp in OptimusHQ and enter this ID in the phone field, then save.".

Definition failure_message : jsstring :=
  lit "Sorry, I encountered an error. Please try again.".

(** [msg.message?.conversation || msg.message?.extendedTextMessage?.text || ''] *)
Definition message_text (msg : WebMessageInfo) : jsstring :=
  match content msg with
  | None => []
  | Some c => opt_or_else (conversation c) (opt_or_else (extendedText c) [])
  end.

(** The [userId] the lookup leaves behind; [None] is [null]. *)
Definition lookupUser (phone : jsstring) : M (option jsstring) :=
  st <- get ;;
  match onUserLookup st with
  | None => ret None
  | Some f =>
      result <- call (UserLookup f phone) ;;
      match result with
      | Some r => ret (Some (userId r))
      | None => ret None
      end
  end.

(** The [try] statement of [handleMessage]. *)
Definition process (jid phone text : jsstring) : M unit :=
  try_catch
    (uid <- lookupUser phone ;;
     if negb (truthy_opt uid)
     then sendMessage jid (registration_message phone)
     else
       let uid := opt_or_else uid [] in
       presenceSubscribe jid ;;
       sendPresenceUpdate Composing jid ;;
       response <- askClaude text phone uid ;;
       sendPresenceUpdate Paused jid ;;
       sendMessage jid response ;;
       perform (ConsoleLog (lit "[WhatsApp] Reply to " ++ phone ++ lit ": "
                            ++ substring0 100 response ++ lit "...")))
    (fun err =>
       perform (ConsoleError (lit "[WhatsApp] Error handling message:") err) ;;
       sendMessage jid failure_message).

(** [handleMessage]: the filters, the resolution of the sender (the
    message written to the console in the linked-device branch is
    performed first, the value of [phone] is [resolve_phone jid]), the
    text, then the [try] statement. *)
Definition handleMessage (msg : WebMessageInfo) : M unit :=
  let jid := remoteJid (key msg) in
  if negb (truthy_opt jid) || includes group_marker (opt_or_else jid []) then ret tt
  else
    let jid := opt_or_else jid [] in
    (if negb (endsWith direct_suffix jid) && endsWith lid_suffix jid
     then perform (ConsoleLog (lit "[WhatsApp] LID message from "
                               ++ replace lid_suffix [] jid
                               ++ lit ", looking up by LID"))
     else ret tt) ;;
    let phone := resolve_phone jid in
    if negb (truthy_opt phone)
    then perform (ConsoleLog (lit "[WhatsApp] Could not extract phone from jid: " ++ jid))
    else
      let phone := opt_or_else phone [] in
      let text := message_text msg in
      if negb (truthy text) then ret tt
      else
        perform (ConsoleLog (lit "[WhatsApp] Message from " ++ phone ++ lit ": " ++ text)) ;;
        process jid phone text.

(** The [messages.upsert] listener. *)
Fixpoint handleMessages (messages : list WebMessageInfo) : M unit :=
  match messages with
  | [] => ret tt
  | msg :: rest =>
      (match content msg with
       | None => ret tt
       | Some _ =>
           if fromMe (key msg) then ret tt
           else handleMessage msg ;; ask Yield
       end) ;;
      handleMessages rest
  end.

Definition on_messages_upsert (messages : list WebMessageInfo) (type : jsstring)
  : M unit :=
  if negb (eqb type (lit "notify")) then ret tt else handleMessages messages.

(* ================================================================= *)
(** ** Session supervisor *)

Definition setUserLookup (fn : Callback) : M unit :=
  modify (set_onUserLookup (Some fn)).

Definition setMcpConfigGenerator (fn : Callback) : M unit :=
  modify (set_onGetMcpConfig (Some fn)).

Definition getStatus (st : Svc) : WhatsAppStatus :=
  mkStatus (connected (status st))
           (phoneNumber (status st))
           (if connected (status st) then None
            else if truthy_opt (qrCode st) then qrCode st else None).

Definition isInitializing (st : Svc) : bool := initializing st.

Definition is_some {A} (o : option A) : bool :=
  match o with Some _ => true | None => false end.

Definition initialize : M unit :=
  st <- get ;;
  if is_some (socket st) || initializing st then ret tt
  else
    modify (set_initializing true) ;;
    perform (ConsoleLog (lit "[WhatsApp] Initializing with Baileys...")) ;;
    present <- ask AuthDirExists ;;
    (if present then ret tt else call AuthDirMkdir) ;;
    state <- call UseMultiFileAuthState ;;
    s <- call (MakeWASocket state) ;;
    modify (set_socket (Some s)) ;;
    perform (EvOn s (lit "creds.update") LSaveCreds) ;;
    perform (EvOn s (lit "connection.update") LConnectionUpdate) ;;
    perform (EvOn s (lit "messages.upsert") LMessagesUpsert) ;;
    modify (set_initializing false).

Definition reconnect_delay_ms : Z := 3000.

Section ConnectionUpdate.
(** [DisconnectReason.loggedOut], a constant of the transport library. *)
Variable loggedOut : Z.

(** [statusCode !== DisconnectReason.loggedOut], where the status code
    is [undefined] when the update carries no such error. *)
Definition shouldReconnect (u : ConnectionUpdate) : bool :=
  match lastDisconnect_error u with
  | Some e => match statusCode e with
              | Some c => negb (Z.eqb c loggedOut)
              | None => true
              end
  | None => true
  end.

(** [lastDisconnect?.error?.message || 'Connection closed'] *)
Definition disconnect_message (u : ConnectionUpdate) : jsstring :=
  match lastDisconnect_error u with
  | Some e => opt_or_else (error_message e) (lit "Connection closed")
  | None => lit "Connection closed"
  end.

(** The [connection.update] listener. *)
Definition on_connection_update (u : ConnectionUpdate) : M unit :=
  (if truthy_opt (qr u)
   then perform (ConsoleLog (lit "[WhatsApp] QR code received")) ;;
        modify (set_qrCode (qr u)) ;;
        perform (Emit (lit "qr") (qr u))
   else ret tt) ;;
  match connection u with
  | Some ConnClose =>
      perform (ConsoleLog (lit "[WhatsApp] Connection closed, reconnect: "
                           ++ of_bool (shouldReconnect u))) ;;
      modify (fun st => set_status (set_connected false (status st)) st) ;;
      modify (fun st => set_status (set_phoneNumber None (status st)) st) ;;
      perform (Emit (lit "disconnected") (Some (disconnect_message u))) ;;
      if shouldReconnect u
      then modify (set_socket None) ;;
           modify (set_initializing false) ;;
           perform (SetTimeout CbInitialize reconnect_delay_ms)
      else ret tt
  | Some ConnOpen =>
      perform (ConsoleLog (lit "[WhatsApp] Connected")) ;;
      modify (fun st => set_status (set_connected true (status st)) st) ;;
      modify (set_qrCode None) ;;
      st <- get ;;
      user <- match socket st with
              | Some s => ask (SocketUser s)
              | None => ret None
              end ;;
      match user with
      | Some id =>
          modify (fun st =>
                    set_status
                      (set_phoneNumber (Some (split0 at_sign (split0 colon id)))
                                       (status st)) st)
      | None => ret tt
      end ;;
      perform (Emit (lit "ready") None)
  | _ => ret tt
  end.
End ConnectionUpdate.

(** What a timer does when it fires.  The dispatch timer is part of
    [promise_run]; the reconnection timer calls [initialize]. *)
Definition fire (cb : TimerCallback) : M unit :=
  match cb with
  | CbInitialize => initialize
  | CbKillAndReject => perform_all timer_callback
  end.

Definition disconnect : M unit :=
  st <- get ;;
  match socket st with
  | Some s => call (SocketLogout s) ;; modify (set_socket None)
  | None => ret tt
  end ;;
  modify (set_status initial_status) ;;
  modify (set_qrCode None) ;;
  modify (set_initializing false).

(* ================================================================= *)
(** ** Observing a run *)

(** The text messages handed to the transport: address and text. *)
Fixpoint texts (tr : list Event) : list (jsstring * jsstring) :=
  match tr with
  | [] => []
  | EvCall (SocketSendMessage _ jid text) _ _ :: tr' => (jid, text) :: texts tr'
  | _ :: tr' => texts tr'
  end.

(** The presence signals handed to the transport. *)
Fixpoint presences (tr : list Event) : list (Presence * jsstring) :=
  match tr with
  | [] => []
  | EvCall (SendPresenceUpdate _ p jid) _ _ :: tr' => (p, jid) :: presences tr'
  | _ :: tr' => presences tr'
  end.

(** The subprocesses started: command and argument list. *)
Fixpoint spawned (tr : list Event) : list (jsstring * list jsstring) :=
  match tr with
  | [] => []
  | EvCall (Spawn command args _ _) _ _ :: tr' => (command, args) :: spawned tr'
  | _ :: tr' => spawned tr'
  end.

(** The transport sessions created. *)
Fixpoint sessions (tr : list Event) : list AuthState :=
  match tr with
  | [] => []
  | EvCall (MakeWASocket auth) _ _ :: tr' => auth :: sessions tr'
  | _ :: tr' => sessions tr'
  end.

(** The event subscriptions registered. *)
Fixpoint subscriptions (tr : list Event) : list (Socket * Listener) :=
  match tr with
  | [] => []
  | EvDo (EvOn s _ l) :: tr' => (s, l) :: subscriptions tr'
  | _ :: tr' => subscriptions tr'
  end.

(** The timers set: callback and delay. *)
Fixpoint timers (tr : list Event) : list (TimerCallback * Z) :=
  match tr with
  | [] => []
  | EvDo (SetTimeout cb ms) :: tr' => (cb, ms) :: timers tr'
  | _ :: tr' => timers tr'
  end.

(** The fields of the service as a handler that writes none of them
    finds them after the events [tr], having started in [st]. *)
Fixpoint resumed_state (st : Svc) (tr : list Event) : Svc :=
  match tr with
  | [] => st
  | EvDo _ :: tr' => resumed_state st tr'
  | EvCall _ _ st1 :: tr' => resumed_state st1 tr'
  end.

(** The run cut where the dispatch promise settles: the events before,
    what it settles to, the events after. *)
Fixpoint until_settled (tr : list Event)
  : option (list Event * Outcome jsstring * list Event) :=
  match tr with
  | [] => None
  | EvDo (PromiseResolve v) :: post => Some ([], Returned v, post)
  | EvDo (PromiseReject e) :: post => Some ([], Threw e, post)
  | ev :: tr' =>
      match until_settled tr' with
      | Some (pre, o, post) => Some (ev :: pre, o, post)
      | None => None
      end
  end.

(** The authorization lookups made: the identifier asked about, the
    answer, and the fields of the service when the router resumes. *)
Fixpoint lookups (tr : list Event)
  : list (jsstring * Outcome (option AuthResult) * Svc) :=
  match tr with
  | [] => []
  | EvCall (UserLookup _ phone) a s :: tr' => (phone, a, s) :: lookups tr'
  | _ :: tr' => lookups tr'
  end.

(** The text messages the transport rejected. *)
Fixpoint rejected_texts (tr : list Event) : list (jsstring * jsstring) :=
  match tr with
  | [] => []
  | EvCall (SocketSendMessage _ jid text) (Threw _) _ :: tr' =>
      (jid, text) :: rejected_texts tr'
  | _ :: tr' => rejected_texts tr'
  end.

(** The conversation address of a message. *)
Definition address (msg : WebMessageInfo) : jsstring :=
  opt_or_else (remoteJid (key msg)) [].

(** Lines written to the console. *)
Definition console (lines : list jsstring) : list Event :=
  map (fun l => EvDo (ConsoleLog l)) lines.

(** The child-event histories the dispatcher was answered with. *)
Fixpoint child_events (tr : list Event) : list (list ChildEvent) :=
  match tr with
  | [] => []
  | EvCall ChildEvents evs _ :: tr' => evs :: child_events tr'
  | _ :: tr' => child_events tr'
  end.

(** Only output arrived: the child has neither closed nor failed. *)
Definition is_output (ev : ChildEvent) : bool :=
  match ev with
  | StdoutData _ | StderrData _ => true
  | Close _ | Error _ => false
  end.
Definition output_only (evs : list ChildEvent) : bool := forallb is_output evs.

(** The two buffers after the output events [evs]. *)
Fixpoint captured (b : Buffers) (evs : list ChildEvent) : Buffers :=
  match evs with
  | [] => b
  | StdoutData d :: evs' => captured (mkBuffers (stdout b ++ d) (stderr b)) evs'
  | StderrData d :: evs' => captured (mkBuffers (stdout b) (stderr b ++ d)) evs'
  | _ :: evs' => captured b evs'
  end.

(** What the tool-configuration generator supplies to a dispatch that
    begins in [st]; no generator stands for the empty path. *)
Definition config_path {W} (env : @Env W) (st : Svc) (w : W) : Outcome jsstring :=
  match onGetMcpConfig st with
  | Some g => fst (fst (env (McpConfigGenerator g) st w))
  | None => Returned []
  end.

(** The rest of the system leaves a missing session handle missing. *)
Definition keeps_socket_null {W} (env : @Env W) : Prop :=
  forall r st w, socket st = None -> socket (snd (fst (env r st w))) = None.

(** [needle] occurs in [s]. *)
Definition substring_of (needle s : jsstring) : Prop :=
  exists pre post, s = pre ++ needle ++ post.

(** A message the router takes as far as the authorization lookup. *)
Definition eligible (msg : WebMessageInfo) (jid phone text : jsstring) : Prop :=
  remoteJid (key msg) = Some jid /\
  truthy jid = true /\
  includes group_marker jid = false /\
  resolve_phone jid = Some phone /\
  truthy phone = true /\
  message_text msg = text /\
  truthy text = true.

(** A method body that writes no field of the service. *)
Inductive reads_only {R : Type} : Prog R -> Prop :=
| ro_ret r : reads_only (Ret r)
| ro_get k : (forall s, reads_only (k s)) -> reads_only (Get k)
| ro_do e k : reads_only k -> reads_only (Do e k)
| ro_call r k : (forall x, reads_only (k x)) -> reads_only (Call r k).

(** Started without a session handle, the body sends no text and ends
    without a session handle. *)
Definition quiet {W} (env : @Env W) {R} (p : Prog R) : Prop :=
  forall st w,
    socket st = None ->
    texts (trace (run env p st w)) = [] /\
    socket (final (run env p st w)) = None.

(** The reason code of a close event; [None] when the update carries no
    error with a status code. *)
Definition reason (u : ConnectionUpdate) : option Z :=
  match lastDisconnect_error u with
  | Some e => statusCode e
  | None => None
  end.

(* ================================================================= *)
(** ** Concrete runs *)

(** A scripted rest-of-the-system: what the lookup, the generator and
    the child answer, whether the transport accepts a text, and the call
    during which the connection closes (the close listener then clears
    the session handle). *)
Record Scenario := mkScenario {
  lookup_answer : Outcome (option AuthResult);
  generator_answer : Outcome jsstring;
  child_answer : list ChildEvent;
  send_answer : Outcome unit;
  connection_lost_during : Request -> bool
}.

Definition scripted (sc : Scenario) : @Env unit :=
  fun r st w =>
    ( match r as r0 return Resp r0 with
      | AuthDirExists => true
      | AuthDirMkdir => Returned tt
      | UseMultiFileAuthState => Returned 0
      | MakeWASocket auth => Returned (S auth)
      | SocketUser _ => None
      | SocketLogout _ => Returned tt
      | UserLookup _ _ => lookup_answer sc
      | McpConfigGenerator _ => generator_answer sc
      | PresenceSubscribe _ _ => Returned tt
      | SendPresenceUpdate _ _ _ => Returned tt
      | SocketSendMessage _ _ _ => send_answer sc
      | ProcessEnvHome => None
      | Spawn _ _ _ _ => Returned tt
      | ChildEvents => child_answer sc
      | Yield => tt
      end,
      if connection_lost_during sc r then set_socket None st else st,
      w ).

Definition never (r : Request) : bool := false.
Definition during_lookup (r : Request) : bool :=
  match r with UserLookup _ _ => true | _ => false end.
Definition during_dispatch (r : Request) : bool :=
  match r with ChildEvents => true | _ => false end.

(** A connected service with both collaborators wired. *)
Definition connected_service : Svc :=
  mkSvc (Some 1) (mkStatus true (Some (lit "15559990000")) None) None false
        (Some 7) (Some 8).

Definition sample_jid : jsstring := lit "15550000000@s.whatsapp.net".
Definition sample_phone : jsstring := lit "15550000000".
Definition sample_message : WebMessageInfo :=
  mkMsg (mkKey (Some sample_jid) false)
        (Some (mkContent (Some (lit "status?")) None)).
Definition sample_user : AuthResult := mkAuth (lit "user-1") (lit "project-1").

(** The backend answers and exits with code 0. *)
Definition answered : Scenario :=
  mkScenario (Returned (Some sample_user)) (Returned (lit "/tmp/mcp.json"))
             [StdoutData (lit "Project X is idle
"); Close (Some 0%Z)]
             (Returned tt) never.

(** The backend answers, and the connection closes while it runs. *)
Definition answered_offline : Scenario :=
  mkScenario (Returned (Some sample_user)) (Returned (lit "/tmp/mcp.json"))
             [StdoutData (lit "Project X is idle
"); Close (Some 0%Z)]
             (Returned tt) during_dispatch.

(** The backend writes nothing and never exits. *)
Definition hanging : Scenario :=
  mkScenario (Returned (Some sample_user)) (Returned [])
             [] (Returned tt) never.

(** The backend fails, and the connection closes while it runs. *)
Definition failed_offline : Scenario :=
  mkScenario (Returned (Some sample_user)) (Returned [])
             [StderrData (lit "boom"); Close (Some 1%Z)]
             (Returned tt) during_dispatch.

(** The sender is not registered. *)
Definition unregistered : Scenario :=
  mkScenario (Returned None) (Returned []) [] (Returned tt) never.

(** The sender is not registered, and the connection closes during the
    lookup. *)
Definition unregistered_offline : Scenario :=
  mkScenario (Returned None) (Returned []) [] (Returned tt) during_lookup.

(** A close event that is no logout: the connection was lost. *)
Definition lost_connection : ConnectionUpdate :=
  mkUpdate (Some ConnClose)
           (Some (mkDisconnectError (Some (lit "Connection lost")) (Some 408%Z)))
           None.

(* ================================================================= *)
(** ** Further observations *)

(** The calls made, in order. *)
Fixpoint calls (tr : list Event) : list Request :=
  match tr with
  | [] => []
  | EvCall r _ _ :: tr' => r :: calls tr'
  | _ :: tr' => calls tr'
  end.

(** How often [child.kill()] is called in the events [tr]. *)
Fixpoint kills (tr : list Event) : nat :=
  match tr with
  | [] => 0
  | EvDo ChildKill :: tr' => S (kills tr')
  | _ :: tr' => kills tr'
  end.

(** The events emitted on the service: name and payload. *)
Fixpoint emitted (tr : list Event) : list (jsstring * option jsstring) :=
  match tr with
  | [] => []
  | EvDo (Emit event payload) :: tr' => (event, payload) :: emitted tr'
  | _ :: tr' => emitted tr'
  end.

(** The subprocess starts in full: command, arguments, [HOME], [USER_ID]. *)
Fixpoint spawn_calls (tr : list Event)
  : list (jsstring * list jsstring * jsstring * jsstring) :=
  match tr with
  | [] => []
  | EvCall (Spawn command args home user) _ _ :: tr' =>
      (command, args, home, user) :: spawn_calls tr'
  | _ :: tr' => spawn_calls tr'
  end.

(** The answers to the reads of [process.env.HOME]. *)
Fixpoint homes (tr : list Event) : list (option jsstring) :=
  match tr with
  | [] => []
  | EvCall ProcessEnvHome h _ :: tr' => h :: homes tr'
  | _ :: tr' => homes tr'
  end.

(** The presence calls the transport rejected; [None] is the
    subscription. *)
Fixpoint rejected_signals (tr : list Event) : list (option Presence) :=
  match tr with
  | [] => []
  | EvCall (PresenceSubscribe _ _) (Threw _) _ :: tr' => None :: rejected_signals tr'
  | EvCall (SendPresenceUpdate _ p _) (Threw _) _ :: tr' =>
      Some p :: rejected_signals tr'
  | _ :: tr' => rejected_signals tr'
  end.

(** What leaves the router for one message, in order. *)
Inductive Op :=
| OpSubscribe (jid : jsstring)
| OpPresence (p : Presence) (jid : jsstring)
| OpSpawn (user_id : jsstring)
| OpText (jid text : jsstring).

Fixpoint ops (tr : list Event) : list Op :=
  match tr with
  | [] => []
  | EvCall (PresenceSubscribe _ jid) _ _ :: tr' => OpSubscribe jid :: ops tr'
  | EvCall (SendPresenceUpdate _ p jid) _ _ :: tr' => OpPresence p jid :: ops tr'
  | EvCall (Spawn _ _ _ user) _ _ :: tr' => OpSpawn user :: ops tr'
  | EvCall (SocketSendMessage _ jid text) _ _ :: tr' => OpText jid text :: ops tr'
  | _ :: tr' => ops tr'
  end.

(** The chunks of each stream, in order of arrival. *)
Fixpoint stdout_chunks (evs : list ChildEvent) : list jsstring :=
  match evs with
  | [] => []
  | StdoutData d :: evs' => d :: stdout_chunks evs'
  | _ :: evs' => stdout_chunks evs'
  end.

Fixpoint stderr_chunks (evs : list ChildEvent) : list jsstring :=
  match evs with
  | [] => []
  | StderrData d :: evs' => d :: stderr_chunks evs'
  | _ :: evs' => stderr_chunks evs'
  end.

(** The rest of the system leaves the fields of the service alone. *)
Definition undisturbed {W} (env : @Env W) : Prop :=
  forall r st w, snd (fst (env r st w)) = st.

(** The transport takes what it is handed: presence calls and texts do
    not throw. *)
Definition accepted (r : Request) : Resp r -> Prop :=
  match r with
  | PresenceSubscribe _ _ => fun a => a = Returned tt
  | SendPresenceUpdate _ _ _ => fun a => a = Returned tt
  | SocketSendMessage _ _ _ => fun a => a = Returned tt
  | _ => fun _ => True
  end.

Definition accepting {W} (env : @Env W) : Prop :=
  forall r st w, accepted r (fst (fst (env r st w))).

(** A message the [messages.upsert] listener passes over. *)
Definition skipped (msg : WebMessageInfo) : bool :=
  negb (is_some (content msg)) || fromMe (key msg).

(** The code units neither [':'] nor ['@']. *)
Definition plain (c : char16) : bool :=
  negb (N.eqb c colon) && negb (N.eqb c at_sign).

(** A second scripted rest-of-the-system, for the supervisor: what the
    credential store, the socket and the file system answer; everything
    else as in [scripted]. *)
Record Setup := mkSetup {
  auth_answer : Outcome AuthState;
  socket_answer : Outcome Socket;
  user_answer : option jsstring;
  logout_answer : Outcome unit;
  presence_answer : Outcome unit;
  dir_present : bool
}.

Definition staged (su : Setup) (sc : Scenario) : @Env unit :=
  fun r st w =>
    match r as r0 return Resp r0 * Svc * unit with
    | AuthDirExists => (dir_present su, st, w)
    | UseMultiFileAuthState => (auth_answer su, st, w)
    | MakeWASocket _ => (socket_answer su, st, w)
    | SocketUser _ => (user_answer su, st, w)
    | SocketLogout _ => (logout_answer su, st, w)
    | PresenceSubscribe _ _ => (presence_answer su, st, w)
    | SendPresenceUpdate _ _ _ => (presence_answer su, st, w)
    | r0 => scripted sc r0 st w
    end.

(** The credential store cannot be read. *)
Definition broken_store : Setup :=
  mkSetup (Threw (mkError (lit "EACCES"))) (Returned 2) None
          (Returned tt) (Returned tt) true.

(** All is well, and the socket knows its user. *)
Definition paired : Setup :=
  mkSetup (Returned 0) (Returned 2) (Some (lit "15551234567:9@s.whatsapp.net"))
          (Returned tt) (Returned tt) false.

(** The transport refuses to log out. *)
Definition stuck_logout : Setup :=
  mkSetup (Returned 0) (Returned 2) None
          (Threw (mkError (lit "not connected"))) (Returned tt) true.

(** The transport refuses presence signals. *)
Definition no_presence : Setup :=
  mkSetup (Returned 0) (Returned 2) None
          (Returned tt) (Threw (mkError (lit "presence unavailable"))) true.

(** The lookup fails, and so does every send. *)
Definition all_failing : Scenario :=
  mkScenario (Threw (mkError (lit "database is locked"))) (Returned [])
             [] (Threw (mkError (lit "socket closed"))) never.

(** The lookup fails. *)
Definition lookup_failing : Scenario :=
  mkScenario (Threw (mkError (lit "database is locked"))) (Returned [])
             [] (Returned tt) never.


(** The tool-configuration generator fails. *)
Definition generator_failing : Scenario :=
  mkScenario (Returned (Some sample_user)) (Threw (mkError (lit "ENOSPC")))
             [] (Returned tt) never.

(** The backend binary is missing. *)
Definition not_installed : Scenario :=
  mkScenario (Returned (Some sample_user)) (Returned [])
             [StderrData (lit "partial"); Error (mkError (lit "spawn claude ENOENT"));
              Close (Some (-2)%Z)]
             (Returned tt) never.

(** The backend exits with code 1 and nothing on its standard error. *)
Definition crashed : Scenario :=
  mkScenario (Returned (Some sample_user)) (Returned [])
             [StdoutData (lit "partial"); Close (Some 1%Z)]
             (Returned tt) never.

(** The backend complains on its standard error and exits with code 0
    and no output. *)
Definition complained : Scenario :=
  mkScenario (Returned (Some sample_user)) (Returned [])
             [StderrData (lit "not logged in"); Close (Some 0%Z)]
             (Returned tt) never.

(** [spawn] throws: the question holds a NUL character. *)
Definition spawn_refused : @Env unit :=
  fun r st w =>
    match r as r0 return Resp r0 * Svc * unit with
    | Spawn _ _ _ _ =>
        (Threw (mkError (lit "The argument 'args[9]' must be a string without null bytes")),
         st, w)
    | r0 => scripted hanging r0 st w
    end.

Definition group_message : WebMessageInfo :=
  mkMsg (mkKey (Some (lit "120363001234567890@g.us")) false)
        (Some (mkContent (Some (lit "hello all")) None)).

Definition broadcast_message : WebMessageInfo :=
  mkMsg (mkKey (Some (lit "status@broadcast")) false)
        (Some (mkContent (Some (lit "news")) None)).

Definition own_message : WebMessageInfo :=
  mkMsg (mkKey (Some sample_jid) true)
        (Some (mkContent (Some (lit "note to self")) None)).

Definition empty_message : WebMessageInfo :=
  mkMsg (mkKey (Some sample_jid) false) None.

Definition lid_message : WebMessageInfo :=
  mkMsg (mkKey (Some (lit "98765432101234:7@lid")) false)
        (Some (mkContent None (Some (lit "status?")))).

(** A pairing challenge, and the connection opening. *)
Definition pairing_challenge : ConnectionUpdate :=
  mkUpdate None None (Some (lit "2@AbCdEf")).
Definition connection_opened : ConnectionUpdate :=
  mkUpdate (Some ConnOpen) None None.

(** What the callbacks of the dispatches in [tr] still do after their
    promises have settled, that is, after the calls that awaited them
    have completed. *)
Definition afterwards (tr : list Event) : list Event :=
  map EvDo (flat_map (fun evs => after (promise_run empty_buffers evs))
                     (child_events tr)).

(** The exits of a child the dispatcher has been told of before the
    timer fires: the exit codes of the [close] events delivered to it.
    Nothing else reports an exit; [child.kill()] asks for the signal to
    be sent and returns. *)
Fixpoint exit_codes (evs : list ChildEvent) : list (option Z) :=
  match evs with
  | [] => []
  | Close code :: evs' => code :: exit_codes evs'
  | _ :: evs' => exit_codes evs'
  end.

Definition reported_exits (tr : list Event) : list (option Z) :=
  flat_map exit_codes (child_events tr).

(** The errors thrown on the way to a child: by the tool-configuration
    generator and by [spawn]. *)
Fixpoint start_errors (tr : list Event) : list JsError :=
  match tr with
  | [] => []
  | EvCall (McpConfigGenerator _) (Threw e) _ :: tr' => e :: start_errors tr'
  | EvCall (Spawn _ _ _ _) (Threw e) _ :: tr' => e :: start_errors tr'
  | _ :: tr' => start_errors tr'
  end.

(** What the socket answers when asked for its user. *)
Fixpoint user_ids (tr : list Event) : list (option jsstring) :=
  match tr with
  | [] => []
  | EvCall (SocketUser _) id _ :: tr' => id :: user_ids tr'
  | _ :: tr' => user_ids tr'
  end.

(** The logouts asked of the transport. *)
Fixpoint logouts (tr : list Event) : list (Socket * Outcome unit) :=
  match tr with
  | [] => []
  | EvCall (SocketLogout s) a _ :: tr' => (s, a) :: logouts tr'
  | _ :: tr' => logouts tr'
  end.

(** An operation that concerns the conversation [jid], if any at all. *)
Definition addressed (jid : jsstring) (op : Op) : Prop :=
  match op with
  | OpSubscribe j => j = jid
  | OpPresence _ j => j = jid
  | OpText j _ => j = jid
  | OpSpawn _ => True
  end.

(* ================================================================= *)
(** ** String lemmas *)

Arguments lit : simpl never.

Lemma startsWith_true (pat s : jsstring) :
  startsWith pat s = true <-> exists r, s = pat ++ r.
Proof.
  revert s. induction pat as [|p pat IH]; intros s; simpl.
  - split; [intros _; now exists s | reflexivity].
  - destruct s as [|c s].
    + split; [discriminate | intros [r Hr]; discriminate].
    + rewrite andb_true_iff, N.eqb_eq, IH. split.
      * intros [-> [r ->]]. now exists r.
      * intros [r Hr]. injection Hr as -> ->. split; [reflexivity | now exists r].
Qed.

Lemma startsWith_app (pat r : jsstring) : startsWith pat (pat ++ r) = true.
Proof. apply startsWith_true. now exists r. Qed.

Lemma endsWith_true (suf s : jsstring) :
  endsWith suf s = true <-> exists base, s = base ++ suf.
Proof.
  unfold endsWith. rewrite startsWith_true. split.
  - intros [r Hr]. exists (rev r).
    rewrite <- (rev_involutive s), Hr, rev_app_distr, rev_involutive. reflexivity.
  - intros [base ->]. exists (rev base). apply rev_app_distr.
Qed.

Lemma replace_eq (pat rep s : jsstring) :
  replace pat rep s =
  if startsWith pat s then rep ++ skipn (length pat) s
  else match s with
       | [] => []
       | c :: s' => c :: replace pat rep s'
       end.
Proof. destruct s; reflexivity. Qed.

Lemma startsWith_removelast (pat s : jsstring) :
  startsWith pat s = true -> length pat < length s ->
  startsWith pat (removelast s) = true.
Proof.
  intros H Hlen. apply startsWith_true in H as [r ->].
  assert (r <> []) by (intros ->; rewrite app_nil_r in Hlen; lia).
  rewrite removelast_app by assumption. apply startsWith_app.
Qed.

(** Where the suffix text occurs at the end only, replacing its first
    occurrence removes the suffix. *)
Lemma replace_suffix (suf base : jsstring) :
  suf <> [] ->
  includes suf (removelast (base ++ suf)) = false ->
  replace suf [] (base ++ suf) = base.
Proof.
  intros Hsuf. induction base as [|c base IH]; intros Hin.
  - simpl app. rewrite replace_eq.
    rewrite <- (app_nil_r suf) at 2. rewrite startsWith_app.
    rewrite skipn_all. reflexivity.
  - assert (Hne : base ++ suf <> []) by (destruct base; [assumption | discriminate]).
    change ((c :: base) ++ suf) with (c :: (base ++ suf)) in *.
    assert (Hrl : removelast (c :: base ++ suf) = c :: removelast (base ++ suf)).
    { simpl. destruct (base ++ suf); [contradiction | reflexivity]. }
    rewrite Hrl in Hin. simpl in Hin. apply orb_false_iff in Hin as [Hhere Hlater].
    rewrite replace_eq.
    destruct (startsWith suf (c :: base ++ suf)) eqn:Hs.
    + apply startsWith_removelast in Hs.
      * rewrite Hrl in Hs. congruence.
      * simpl. rewrite length_app. lia.
    + f_equal. apply IH, Hlater.
Qed.

Lemma strip_suffix_app (suf base : jsstring) : strip_suffix suf (base ++ suf) = base.
Proof.
  unfold strip_suffix. rewrite length_app.
  replace (length base + length suf - length suf) with (length base + 0) by lia.
  rewrite firstn_app_2. simpl. apply app_nil_r.
Qed.

Lemma split_not_nil (sep : char16) (s : jsstring) : split sep s <> [].
Proof.
  induction s as [|c s IH]; simpl; [discriminate|].
  destruct (N.eqb c sep); [discriminate|].
  destruct (split sep s); [contradiction | discriminate].
Qed.

Lemma split0_cons (sep c : char16) (s : jsstring) :
  split0 sep (c :: s) = if N.eqb c sep then [] else c :: split0 sep s.
Proof.
  unfold split0. simpl. destruct (N.eqb c sep); [reflexivity|].
  pose proof (split_not_nil sep s). destruct (split sep s); [contradiction | reflexivity].
Qed.

(** [split(sep)[0]] is the text before the first separator. *)
Lemma split0_before (sep : char16) (user rest : jsstring) :
  ~ In sep user -> split0 sep (user ++ sep :: rest) = user.
Proof.
  induction user as [|c user IH]; intros Hnot; simpl app; rewrite split0_cons.
  - now rewrite N.eqb_refl.
  - destruct (N.eqb_spec c sep) as [->|_].
    + exfalso. apply Hnot. now left.
    + f_equal. apply IH. intros Hin. apply Hnot. now right.
Qed.

Lemma split0_none (sep : char16) (user : jsstring) :
  ~ In sep user -> split0 sep user = user.
Proof.
  induction user as [|c user IH]; intros Hnot; [reflexivity|].
  rewrite split0_cons. destruct (N.eqb_spec c sep) as [->|_].
  - exfalso. apply Hnot. now left.
  - f_equal. apply IH. intros Hin. apply Hnot. now right.
Qed.

(* ================================================================= *)
(** ** Identity resolver: properties *)

(** A string that carries the suffix text twice is no address (an
    address has one ['@'], between its user part and its server); on
    such a string [replace] removes the first occurrence, not the
    suffix. *)
Lemma resolve_phone_not_suffix_removal :
  endsWith direct_suffix twice_suffixed = true /\
  resolve_phone twice_suffixed = Some (lit "12@s.whatsapp.net") /\
  resolve_direct_spec twice_suffixed = lit "1@s.whatsapp.net2" /\
  resolve_phone twice_suffixed <> Some (resolve_direct_spec twice_suffixed).
Proof. repeat split; try reflexivity. vm_compute. discriminate. Qed.

(** On an address that carries the suffix text at its end only, the code
    and the specification's wording agree. *)
Lemma resolve_phone_single_suffix (jid : jsstring) :
  endsWith direct_suffix jid = true ->
  occurs_only_at_end direct_suffix jid = true ->
  resolve_phone jid = Some (resolve_direct_spec jid).
Proof.
  intros Hends Honce.
  unfold resolve_phone, resolve_direct_spec. rewrite Hends.
  apply endsWith_true in Hends as [base ->].
  unfold occurs_only_at_end in Honce. apply negb_true_iff in Honce.
  rewrite replace_suffix, strip_suffix_app; [reflexivity | discriminate | assumption].
Qed.

Lemma includes_cons (pat : jsstring) (c : char16) (s : jsstring) :
  includes pat (c :: s) = startsWith pat (c :: s) || includes pat s.
Proof. reflexivity. Qed.

(** In an address the suffix text occurs at the end only: the user part
    holds no ['@']. *)
Lemma address_single_suffix (user_part : jsstring) :
  ~ In at_sign user_part ->
  occurs_only_at_end direct_suffix (user_part ++ direct_suffix) = true.
Proof.
  intros Hat. unfold occurs_only_at_end. apply negb_true_iff.
  rewrite removelast_app by discriminate.
  induction user_part as [|c u IH].
  - reflexivity.
  - rewrite <- app_comm_cons, includes_cons.
    rewrite IH by (intros Hin; apply Hat; now right).
    rewrite orb_false_r.
    change direct_suffix with (at_sign :: lit "s.whatsapp.net").
    cbn [startsWith].
    destruct (N.eqb_spec at_sign c) as [<-|_]; [|reflexivity].
    exfalso. apply Hat. now left.
Qed.

(** C9: identity resolution is a function of the address string alone.
    For every address with the direct-message suffix (an address is a
    user part, which holds no ['@'], followed by the suffix) it returns
    the address with the suffix removed and the text from the first
    colon on stripped, that is, the user part up to its first colon;
    and "15551234567:9@s.whatsapp.net" resolves to "15551234567". *)
Theorem resolve_phone_direct (user_part : jsstring) :
  ~ In at_sign user_part ->
  resolve_phone (user_part ++ direct_suffix)
  = Some (resolve_direct_spec (user_part ++ direct_suffix)) /\
  resolve_direct_spec (user_part ++ direct_suffix) = split0 colon user_part /\
  resolve_phone (lit "15551234567:9@s.whatsapp.net") = Some (lit "15551234567").
Proof.
  intros Hat. split; [|split; [|reflexivity]].
  - apply resolve_phone_single_suffix.
    + apply endsWith_true. now exists user_part.
    + now apply address_single_suffix.
  - unfold resolve_direct_spec. now rewrite strip_suffix_app.
Qed.

Lemma resolve_phone_direct_witness :
  resolve_phone (lit "15550000000:12" ++ direct_suffix)
  = Some (resolve_direct_spec (lit "15550000000:12" ++ direct_suffix)) /\
  resolve_direct_spec (lit "15550000000:12" ++ direct_suffix)
  = split0 colon (lit "15550000000:12") /\
  resolve_phone (lit "15551234567:9@s.whatsapp.net") = Some (lit "15551234567").
Proof.
  apply (resolve_phone_direct (lit "15550000000:12")).
  vm_compute. intuition discriminate.
Defined.

(** The same, with the address taken apart: user part, device segment,
    suffix. *)
Lemma resolve_phone_user_device (user device : jsstring) :
  ~ In colon user ->
  occurs_only_at_end direct_suffix (user ++ colon :: device ++ direct_suffix) = true ->
  resolve_phone (user ++ colon :: device ++ direct_suffix) = Some user.
Proof.
  intros Hcolon Honce.
  pose proof (resolve_phone_single_suffix ((user ++ colon :: device) ++ direct_suffix))
    as H.
  rewrite <- app_assoc in H. simpl app in H.
  rewrite H;
    [| apply endsWith_true; exists (user ++ colon :: device);
       now rewrite <- app_assoc
     | assumption ].
  f_equal. unfold resolve_direct_spec.
  change (user ++ colon :: device ++ direct_suffix)
    with (user ++ (colon :: device) ++ direct_suffix).
  rewrite app_assoc, strip_suffix_app. now apply split0_before.
Qed.

(** Without a device segment the user part is returned as it is. *)
Lemma resolve_phone_user (user : jsstring) :
  ~ In colon user ->
  occurs_only_at_end direct_suffix (user ++ direct_suffix) = true ->
  resolve_phone (user ++ direct_suffix) = Some user.
Proof.
  intros Hcolon Honce.
  rewrite resolve_phone_single_suffix;
    [| apply endsWith_true; now exists user | assumption ].
  f_equal. unfold resolve_direct_spec.
  rewrite strip_suffix_app. now apply split0_none.
Qed.

(* ================================================================= *)
(** ** Argument list: properties *)

(** C1, as stated, fails: with a configuration path the pair does not
    follow [--max-turns 5]. *)
Lemma spawn_args_not_spec_order :
  spawn_args (lit "prompt") (lit "status?") (lit "/tmp/mcp.json")
  <> spawn_args_spec (lit "prompt") (lit "status?") (lit "/tmp/mcp.json").
Proof. vm_compute. discriminate. Qed.

(* ================================================================= *)
(** ** Runs: general lemmas *)

Arguments systemPrompt : simpl never.
Arguments registration_message : simpl never.
Arguments failure_message : simpl never.
Arguments spawn_args : simpl never.
Arguments resolve_phone : simpl never.
Arguments promise_run : simpl never.
Arguments askClaude : simpl never.

Section RunLemmas.
Context {W : Type} (env : @Env W).

Lemma run_pbind {A B} (p : Prog A) (f : A -> Prog B) st w :
  run env (pbind p f) st w =
  let x := run env p st w in
  let y := run env (f (result x)) (final x) (world x) in
  mkRan (result y) (final y) (world y) (trace x ++ trace y).
Proof.
  revert st w. induction p as [a|k IH|s k IH|e k IH|r k IH]; intros st w; simpl.
  - destruct (run env (f a) st w). reflexivity.
  - apply IH.
  - apply IH.
  - rewrite IH. reflexivity.
  - rewrite IH. reflexivity.
Qed.

Lemma run_perform_all {A} (es : list Effect) (k : M A) st w :
  run env (perform_all es ;; k) st w =
  let x := run env k st w in
  mkRan (result x) (final x) (world x) (map EvDo es ++ trace x).
Proof.
  unfold bind. induction es as [|e es IH]; simpl.
  - destruct (run env k st w). reflexivity.
  - rewrite IH. reflexivity.
Qed.

Lemma reads_only_pbind {A B} (p : Prog A) (f : A -> Prog B) :
  reads_only p -> (forall a, reads_only (f a)) -> reads_only (pbind p f).
Proof. induction 1; intros Hf; simpl; try constructor; auto. Qed.

Lemma reads_only_perform_all (es : list Effect) : reads_only (perform_all es).
Proof. induction es; simpl; constructor; auto. Qed.

(** A body that writes no field finds the session handle missing at
    its end, if it was missing at the start and nothing restores it. *)
Lemma reads_only_offline {R} (p : Prog R) st w :
  reads_only p ->
  keeps_socket_null env ->
  socket st = None ->
  socket (final (run env p st w)) = None.
Proof.
  intros Hro Hkeep. revert st w.
  induction Hro as [r|k Hk IH|e k Hk IH|r k Hk IH]; intros st w Hnone; simpl; auto.
Qed.
End RunLemmas.

Lemma texts_app t1 t2 : texts (t1 ++ t2) = texts t1 ++ texts t2.
Proof.
  induction t1 as [|[e|r x s] t1 IH]; simpl; [reflexivity | assumption |].
  destruct r; simpl; rewrite ?IH; reflexivity.
Qed.

Lemma presences_app t1 t2 : presences (t1 ++ t2) = presences t1 ++ presences t2.
Proof.
  induction t1 as [|[e|r x s] t1 IH]; simpl; [reflexivity | assumption |].
  destruct r; simpl; rewrite ?IH; reflexivity.
Qed.

Lemma spawned_app t1 t2 : spawned (t1 ++ t2) = spawned t1 ++ spawned t2.
Proof.
  induction t1 as [|[e|r x s] t1 IH]; simpl; [reflexivity | assumption |].
  destruct r; simpl; rewrite ?IH; reflexivity.
Qed.

Lemma child_events_app t1 t2 :
  child_events (t1 ++ t2) = child_events t1 ++ child_events t2.
Proof.
  induction t1 as [|[e|r x s] t1 IH]; simpl; [reflexivity | assumption |].
  destruct r; simpl; rewrite ?IH; reflexivity.
Qed.

Lemma timers_app t1 t2 : timers (t1 ++ t2) = timers t1 ++ timers t2.
Proof.
  induction t1 as [|[e|r x s] t1 IH]; simpl; [reflexivity | | assumption].
  destruct e; simpl; rewrite ?IH; reflexivity.
Qed.

Lemma texts_effects es : texts (map EvDo es) = [].
Proof. induction es; simpl; auto. Qed.

Lemma presences_effects es : presences (map EvDo es) = [].
Proof. induction es; simpl; auto. Qed.

Lemma spawned_effects es : spawned (map EvDo es) = [].
Proof. induction es; simpl; auto. Qed.

Lemma child_events_effects es : child_events (map EvDo es) = [].
Proof. induction es; simpl; auto. Qed.

Lemma resumed_state_effects st es : resumed_state st (map EvDo es) = st.
Proof. induction es; simpl; auto. Qed.

(* ================================================================= *)
(** ** The dispatch promise: properties *)

(** The listeners and the timer perform the settling call last; the
    timer alone kills the child first. *)
Lemma promise_run_effects (b : Buffers) (evs : list ChildEvent) :
  before (promise_run b evs) = [settle (outcome (promise_run b evs))] \/
  (before (promise_run b evs) = [ChildKill; settle timed_out] /\
   outcome (promise_run b evs) = timed_out).
Proof.
  revert b. induction evs as [|[d|d|code|err] evs IH]; intros b;
    unfold promise_run; fold promise_run; simpl; auto.
Qed.

Lemma promise_run_close (b : Buffers) (pre rest : list ChildEvent) (code : option Z) :
  output_only pre = true ->
  promise_run b (pre ++ Close code :: rest) =
  mkPromise [settle (on_close (captured b pre) code)]
            (on_close (captured b pre) code)
            (late (captured b pre) rest).
Proof.
  revert b. induction pre as [|[d|d|c|err] pre IH]; intros b Hout;
    simpl in Hout; try discriminate; simpl app;
    unfold promise_run; fold promise_run; simpl captured; auto.
Qed.

Lemma promise_run_timeout (b : Buffers) (evs : list ChildEvent) :
  output_only evs = true ->
  promise_run b evs = mkPromise [ChildKill; settle timed_out] timed_out [].
Proof.
  revert b. induction evs as [|[d|d|c|err] evs IH]; intros b Hout;
    simpl in Hout; try discriminate;
    unfold promise_run; fold promise_run; auto.
Qed.

Lemma promise_run_resolved (b : Buffers) (evs : list ChildEvent) (v : jsstring) :
  outcome (promise_run b evs) = Returned v ->
  exists pre rest,
    evs = pre ++ Close (Some 0%Z) :: rest /\
    output_only pre = true /\
    truthy (trim (stdout (captured b pre))) = true /\
    v = trim (stdout (captured b pre)).
Proof.
  revert b. induction evs as [|[d|d|code|err] evs IH]; intros b;
    unfold promise_run; fold promise_run; simpl outcome.
  - discriminate.
  - intros H. apply IH in H as (pre & rest & -> & Hout & Hne & ->).
    exists (StdoutData d :: pre), rest. auto.
  - intros H. apply IH in H as (pre & rest & -> & Hout & Hne & ->).
    exists (StderrData d :: pre), rest. auto.
  - unfold on_close.
    destruct (code_is_zero code && truthy (trim (stdout b))) eqn:Hc; [|discriminate].
    intros [= <-]. apply andb_true_iff in Hc as [Hz Hne].
    exists [], evs. simpl. repeat split; auto.
    destruct code as [z|]; simpl in Hz; [|discriminate].
    apply Z.eqb_eq in Hz. now subst.
  - discriminate.
Qed.

(* ================================================================= *)
(** ** Dispatcher: properties *)

Ltac answer_as x st w E :=
  match goal with
  | |- context [fst (fst (?env ?r ?s ?w0))] =>
      is_var s; is_var w0;
      destruct (env r s w0) as [[x st] w] eqn:E; simpl fst in *; simpl snd in *
  end.

Ltac next_answer :=
  let x := fresh "x" in let st := fresh "st" in
  let w := fresh "w" in let E := fresh "E" in
  answer_as x st w E.

(** The argument list, written out for both cases of the [splice]. *)
Lemma spawn_args_lists (prompt question path : jsstring) :
  spawn_args prompt question path =
  if truthy path then
    [ lit "--print";
      lit "--model"; lit "sonnet";
      lit "--dangerously-skip-permissions";
      lit "--mcp-config"; path;
      lit "--system-prompt"; prompt;
      lit "--max-turns"; lit "5";
      lit "--"; question ]
  else
    [ lit "--print";
      lit "--model"; lit "sonnet";
      lit "--dangerously-skip-permissions";
      lit "--system-prompt"; prompt;
      lit "--max-turns"; lit "5";
      lit "--"; question ].
Proof. unfold spawn_args. destruct path; reflexivity. Qed.

Section Dispatcher.
Context {W : Type} (env : @Env W).
Variables question phone uid : jsstring.

(** [askClaude] sends nothing through the transport.  Its promise
    always settles: that is the last thing done, and the caller resumes
    with what it settled to. *)
Lemma askClaude_run st w :
  let x := run env (askClaude question phone uid) st w in
  texts (trace x) = [] /\
  presences (trace x) = [] /\
  exists pre, until_settled (trace x) = Some (pre, result x, []) /\
              final x = resumed_state st pre /\
              texts pre = [].
Proof.
  unfold askClaude, rejecting, try_catch, throw, get, ask, perform, call, bind.
  simpl.
  assert (Htail : forall st0 w0 evs,
    let y := run env
      (pbind (perform_all (before (promise_run empty_buffers evs)))
         (fun o : Outcome unit =>
            match o with
            | Returned _ => Ret (outcome (promise_run empty_buffers evs))
            | Threw e => Ret (Threw e)
            end)) st0 w0 in
    texts (trace y) = [] /\ presences (trace y) = [] /\
    final y = st0 /\
    exists pre, until_settled (trace y) = Some (pre, result y, []) /\
                resumed_state st0 pre = st0 /\ texts pre = []).
  { intros st0 w0 evs.
    destruct (promise_run_effects empty_buffers evs) as [H|[H Ho]];
      rewrite H; [|rewrite Ho]; simpl.
    - destruct (outcome (promise_run empty_buffers evs)); simpl;
        repeat split; eexists; repeat split; reflexivity.
    - repeat split; eexists; repeat split; reflexivity. }
  destruct (onGetMcpConfig st) as [g|]; simpl.
  - next_answer. destruct x as [path|e]; simpl.
    + next_answer. next_answer. destruct x0 as [[]|e]; simpl.
      * next_answer.
        destruct (Htail st3 w3 x0) as (Ht & Hp & Hf & pre & Hu & Hr & Htp).
        rewrite Ht, Hp, Hf, Hu. repeat split. eexists.
        split; [reflexivity|]. simpl. now rewrite Hr.
      * repeat split. eexists. split; [reflexivity|]. simpl. auto.
    + repeat split. eexists. split; [reflexivity|]. simpl. auto.
  - next_answer. next_answer. destruct x0 as [[]|e]; simpl.
    + next_answer.
      destruct (Htail st2 w2 x0) as (Ht & Hp & Hf & pre & Hu & Hr & Htp).
      rewrite Ht, Hp, Hf, Hu. repeat split. eexists.
      split; [reflexivity|]. simpl. now rewrite Hr.
    + repeat split. eexists. split; [reflexivity|]. simpl. auto.
Qed.

Lemma askClaude_reads_only : reads_only (askClaude question phone uid).
Proof.
  unfold askClaude, rejecting, try_catch, throw, get, ask, perform, call, bind, ret. simpl.
  repeat first
    [ apply ro_ret
    | apply ro_get; intros
    | apply ro_do
    | apply ro_call; intros
    | apply reads_only_perform_all
    | apply reads_only_pbind; intros
    | match goal with
      | |- reads_only (match ?x with _ => _ end) => destruct x
      end ].
Qed.

(** C1 (amended): with a non-empty path from the tool-configuration
    generator the backend is started with [--print, --model sonnet,
    --dangerously-skip-permissions, --mcp-config <path>,
    --system-prompt <text>, --max-turns 5, --, <question>]: the pair
    follows [--dangerously-skip-permissions]; with an empty path the
    pair is absent and the other arguments keep their order. *)
Theorem askClaude_argument_list st w (path : jsstring) :
  config_path env st w = Returned path ->
  spawned (trace (run env (askClaude question phone uid) st w)) =
  [ (lit "claude",
     if truthy path then
       [ lit "--print";
         lit "--model"; lit "sonnet";
         lit "--dangerously-skip-permissions";
         lit "--mcp-config"; path;
         lit "--system-prompt"; systemPrompt phone uid;
         lit "--max-turns"; lit "5";
         lit "--"; question ]
     else
       [ lit "--print";
         lit "--model"; lit "sonnet";
         lit "--dangerously-skip-permissions";
         lit "--system-prompt"; systemPrompt phone uid;
         lit "--max-turns"; lit "5";
         lit "--"; question ]) ].
Proof.
  intros Hpath.
  rewrite <- spawn_args_lists.
  assert (Hrest : forall st0 w0 evs,
    spawned (trace (run env
      (pbind (perform_all (before (promise_run empty_buffers evs)))
         (fun o : Outcome unit =>
            match o with
            | Returned _ => Ret (outcome (promise_run empty_buffers evs))
            | Threw e => Ret (Threw e)
            end)) st0 w0)) = []).
  { intros st0 w0 evs.
    pose proof (run_perform_all env (before (promise_run empty_buffers evs))
                  (Ret (outcome (promise_run empty_buffers evs))) st0 w0) as Hp.
    unfold bind in Hp. rewrite Hp. simpl.
    rewrite spawned_app, spawned_effects. reflexivity. }
  unfold config_path in Hpath.
  unfold askClaude, rejecting, try_catch, throw, get, ask, perform, call, bind. simpl.
  destruct (onGetMcpConfig st) as [g|]; simpl.
  - destruct (env (McpConfigGenerator g) st w) as [[x st1] w1].
    simpl in Hpath. subst x. simpl.
    next_answer. next_answer. destruct x0 as [[]|e]; simpl; [|reflexivity].
    next_answer. now rewrite Hrest.
  - injection Hpath as <-.
    next_answer. next_answer. destruct x0 as [[]|e]; simpl; [|reflexivity].
    next_answer. now rewrite Hrest.
Qed.
Lemma exit_codes_output_only (evs : list ChildEvent) :
  output_only evs = true -> exit_codes evs = [].
Proof.
  induction evs as [|[d|d|c|e] evs IH]; simpl; auto; discriminate.
Qed.

(** C3 (amended): when the two-minute (120000 ms) timer set at the
    start of the dispatch finds that the child has neither closed nor
    failed, the dispatch ends as timed out and the dispatcher calls
    [child.kill()] once: that call and the rejection that completes the
    dispatch are its last two actions.  It does not wait for the child:
    when the call completes no exit has been reported to it. *)
Theorem askClaude_timeout st w (evs : list ChildEvent) :
  let x := run env (askClaude question phone uid) st w in
  child_events (trace x) = [evs] ->
  output_only evs = true ->
  result x = Threw (mkError (lit "Request timed out")) /\
  timers (trace x) = [(CbKillAndReject, 120000%Z)] /\
  kills (trace x) = 1 /\
  reported_exits (trace x) = [] /\
  exists pre,
    trace x = pre ++ [EvDo ChildKill;
                      EvDo (PromiseReject (mkError (lit "Request timed out")))].
Proof.
  assert (Htail : forall st0 w0,
    output_only evs = true ->
    let y := run env
      (pbind (perform_all (before (promise_run empty_buffers evs)))
         (fun o : Outcome unit =>
            match o with
            | Returned _ => Ret (outcome (promise_run empty_buffers evs))
            | Threw e => Ret (Threw e)
            end)) st0 w0 in
    result y = timed_out /\
    trace y = [EvDo ChildKill; EvDo (settle timed_out)]).
  { intros st0 w0 Hout. rewrite (promise_run_timeout _ _ Hout). simpl. auto. }
  unfold askClaude, rejecting, try_catch, throw, get, ask, perform, call, bind.
  simpl.
  destruct (onGetMcpConfig st) as [g|]; simpl.
  - next_answer. destruct x as [path|e]; simpl; [|discriminate].
    next_answer. next_answer. destruct x0 as [[]|e]; simpl; [|discriminate].
    next_answer. intros Hev Hout. injection Hev as Hev _. subst x0.
    destruct (Htail st3 w3 Hout) as [Hr Ht]. rewrite Hr, Ht. simpl.
    unfold reported_exits. simpl.
    rewrite (exit_codes_output_only _ Hout).
    split; [reflexivity | split; [reflexivity | split; [reflexivity |
      split; [reflexivity|]]]].
    eexists (_ :: _ :: _ :: _ :: _ :: _ :: _ :: _ :: [_]).
    reflexivity.
  - next_answer. next_answer. destruct x0 as [[]|e]; simpl; [|discriminate].
    next_answer. intros Hev Hout. injection Hev as Hev _. subst x0.
    destruct (Htail st2 w2 Hout) as [Hr Ht]. rewrite Hr, Ht. simpl.
    unfold reported_exits. simpl.
    rewrite (exit_codes_output_only _ Hout).
    split; [reflexivity | split; [reflexivity | split; [reflexivity |
      split; [reflexivity|]]]].
    eexists (_ :: _ :: _ :: _ :: _ :: _ :: _ :: [_]).
    reflexivity.
Qed.

(** What [askClaude] hands its caller is what the promise settles to
    on the events the child delivered. *)
Lemma askClaude_result st w (evs : list ChildEvent) :
  let x := run env (askClaude question phone uid) st w in
  child_events (trace x) = [evs] ->
  result x = outcome (promise_run empty_buffers evs).
Proof.
  assert (Htail : forall st0 w0,
    result (run env
      (pbind (perform_all (before (promise_run empty_buffers evs)))
         (fun o : Outcome unit =>
            match o with
            | Returned _ => Ret (outcome (promise_run empty_buffers evs))
            | Threw e => Ret (Threw e)
            end)) st0 w0) = outcome (promise_run empty_buffers evs)).
  { intros st0 w0.
    pose proof (run_perform_all env (before (promise_run empty_buffers evs))
                  (Ret (outcome (promise_run empty_buffers evs))) st0 w0) as Hp.
    unfold bind in Hp. rewrite Hp. reflexivity. }
  unfold askClaude, rejecting, try_catch, throw, get, ask, perform, call, bind. simpl.
  destruct (onGetMcpConfig st) as [g|]; simpl.
  - next_answer. destruct x as [path|e]; simpl; [|discriminate].
    next_answer. next_answer. destruct x0 as [[]|e]; simpl; [|discriminate].
    next_answer. intros Hev. injection Hev as Hev _. subst x0. apply Htail.
  - next_answer. next_answer. destruct x0 as [[]|e]; simpl; [|discriminate].
    next_answer. intros Hev. injection Hev as Hev _. subst x0. apply Htail.
Qed.

(** A dispatch resolves only after it has waited for the child. *)
Lemma askClaude_waits st w (s : jsstring) :
  let x := run env (askClaude question phone uid) st w in
  result x = Returned s ->
  exists evs, child_events (trace x) = [evs].
Proof.
  assert (Htail : forall st0 w0 evs,
    child_events (trace (run env
      (pbind (perform_all (before (promise_run empty_buffers evs)))
         (fun o : Outcome unit =>
            match o with
            | Returned _ => Ret (outcome (promise_run empty_buffers evs))
            | Threw e => Ret (Threw e)
            end)) st0 w0)) = []).
  { intros st0 w0 evs.
    pose proof (run_perform_all env (before (promise_run empty_buffers evs))
                  (Ret (outcome (promise_run empty_buffers evs))) st0 w0) as Hp.
    unfold bind in Hp. rewrite Hp. simpl.
    rewrite app_nil_r. apply child_events_effects. }
  unfold askClaude, rejecting, try_catch, throw, get, ask, perform, call, bind.
  simpl.
  destruct (onGetMcpConfig st) as [g|]; simpl.
  - next_answer. destruct x as [path|e]; simpl; [|discriminate].
    next_answer. next_answer. destruct x0 as [[]|e]; simpl; [|discriminate].
    next_answer. intros _. rewrite Htail. eauto.
  - next_answer. next_answer. destruct x0 as [[]|e]; simpl; [|discriminate].
    next_answer. intros _. rewrite Htail. eauto.
Qed.

Lemma start_errors_effects es : start_errors (map EvDo es) = [].
Proof. induction es; simpl; auto. Qed.

(** A throw of the generator or of [spawn] is what the dispatch is
    rejected with. *)
Lemma askClaude_start_errors st w :
  let x := run env (askClaude question phone uid) st w in
  start_errors (trace x) = [] \/
  exists e, start_errors (trace x) = [e] /\ result x = Threw e.
Proof.
  assert (Htail : forall st0 w0 evs,
    start_errors (trace (run env
      (pbind (perform_all (before (promise_run empty_buffers evs)))
         (fun o : Outcome unit =>
            match o with
            | Returned _ => Ret (outcome (promise_run empty_buffers evs))
            | Threw e => Ret (Threw e)
            end)) st0 w0)) = []).
  { intros st0 w0 evs.
    pose proof (run_perform_all env (before (promise_run empty_buffers evs))
                  (Ret (outcome (promise_run empty_buffers evs))) st0 w0) as Hp.
    unfold bind in Hp. rewrite Hp. simpl.
    rewrite app_nil_r. apply start_errors_effects. }
  unfold askClaude, rejecting, try_catch, throw, get, ask, perform, call, bind.
  simpl.
  destruct (onGetMcpConfig st) as [g|]; simpl.
  - next_answer. destruct x as [path|e]; simpl; [|right; eauto].
    next_answer. next_answer. destruct x0 as [[]|e]; simpl; [|right; eauto].
    next_answer. left. apply Htail.
  - next_answer. next_answer. destruct x0 as [[]|e]; simpl; [|right; eauto].
    next_answer. left. apply Htail.
Qed.
End Dispatcher.

(** The promise resolves exactly on a close with exit code 0 and output
    that is not empty once trimmed, provided nothing settled it before;
    any other close rejects it. *)
Lemma promise_on_exit (evs : list ChildEvent) :
  (forall s,
      outcome (promise_run empty_buffers evs) = Returned s <->
      exists pre rest,
        evs = pre ++ Close (Some 0%Z) :: rest /\
        output_only pre = true /\
        trim (stdout (captured empty_buffers pre)) <> [] /\
        s = trim (stdout (captured empty_buffers pre))) /\
  (forall pre code rest,
      evs = pre ++ Close code :: rest ->
      output_only pre = true ->
      code <> Some 0%Z \/ trim (stdout (captured empty_buffers pre)) = [] ->
      outcome (promise_run empty_buffers evs) =
      Threw (mkError
               (match stderr (captured empty_buffers pre) with
                | [] => lit "Claude exited with code " ++ of_code code
                | _ :: _ => stderr (captured empty_buffers pre)
                end))).
Proof.
  split.
  - intros s. split.
    + intros H. apply promise_run_resolved in H as (pre & rest & -> & Hout & Hne & ->).
      exists pre, rest. repeat split; auto.
      intros Hnil. rewrite Hnil in Hne. discriminate.
    + intros (pre & rest & -> & Hout & Hne & ->).
      rewrite promise_run_close by assumption. simpl. unfold on_close. simpl.
      destruct (trim (stdout (captured empty_buffers pre))); [contradiction | reflexivity].
  - intros pre code rest -> Hout Hbad.
    rewrite promise_run_close by assumption. simpl. unfold on_close.
    assert (code_is_zero code
            && truthy (trim (stdout (captured empty_buffers pre))) = false) as ->.
    { destruct Hbad as [Hcode | Hnil].
      - destruct code as [z|]; simpl; [|reflexivity].
        destruct (Z.eqb_spec z 0); [subst; contradiction | reflexivity].
      - rewrite Hnil. apply andb_false_r. }
    unfold or_else. destruct (stderr (captured empty_buffers pre)); reflexivity.
Qed.

(** C2: a dispatch resolves to [s] if and only if it started the
    child, the child exited with code 0 (the close event with that code
    arrived before anything else settled the promise) and the captured
    standard output is not empty once trimmed; [s] is then the trimmed
    output.  When the child exits with another code, or by a signal, or
    with empty trimmed output, the dispatch is rejected with the
    captured standard error, or, when nothing was captured there, with
    ["Claude exited with code "] followed by the decimal numeral of the
    exit code ([null] after a signal). *)
Theorem dispatch_on_exit {W} (env : @Env W) (question phone uid : jsstring) st w :
  let x := run env (askClaude question phone uid) st w in
  (forall s,
      result x = Returned s <->
      exists pre rest,
        child_events (trace x) = [pre ++ Close (Some 0%Z) :: rest] /\
        output_only pre = true /\
        trim (stdout (captured empty_buffers pre)) <> [] /\
        s = trim (stdout (captured empty_buffers pre))) /\
  (forall pre code rest,
      child_events (trace x) = [pre ++ Close code :: rest] ->
      output_only pre = true ->
      code <> Some 0%Z \/ trim (stdout (captured empty_buffers pre)) = [] ->
      result x =
      Threw (mkError
               (match stderr (captured empty_buffers pre) with
                | [] =>
                    lit "Claude exited with code "
                    ++ match code with
                       | Some z => lit (NilZero.string_of_int (Z.to_int z))
                       | None => lit "null"
                       end
                | _ :: _ => stderr (captured empty_buffers pre)
                end))).
Proof.
  intros x. split.
  - intros s. split.
    + intros Hres.
      destruct (askClaude_waits env question phone uid st w s Hres) as [evs Hev].
      fold x in Hev. unfold x in Hres.
      rewrite (askClaude_result env question phone uid st w evs Hev) in Hres.
      apply (proj1 (promise_on_exit evs)) in Hres
        as (pre & rest & -> & Hout & Hne & ->).
      exists pre, rest. auto.
    + intros (pre & rest & Hev & Hout & Hne & ->). unfold x.
      rewrite (askClaude_result env question phone uid st w _ Hev).
      apply (proj1 (promise_on_exit _)). exists pre, rest. auto.
  - intros pre code rest Hev Hout Hbad. unfold x.
    rewrite (askClaude_result env question phone uid st w _ Hev).
    apply (proj2 (promise_on_exit _) pre code rest eq_refl Hout Hbad).
Qed.


(* ================================================================= *)
(** ** Traces: lemmas for the router *)

Lemma until_settled_app_some t1 t2 pre o post :
  until_settled t1 = Some (pre, o, post) ->
  until_settled (t1 ++ t2) = Some (pre, o, post ++ t2).
Proof.
  revert pre o post. induction t1 as [|ev t1 IH]; intros pre o post; simpl.
  - discriminate.
  - destruct ev as [e|r x s].
    + destruct e; try (destruct (until_settled t1) as [[[p o'] q]|]; [|discriminate];
                       intros [= <- <- <-]; now rewrite (IH _ _ _ eq_refl)).
      * intros [= <- <- <-]. reflexivity.
      * intros [= <- <- <-]. reflexivity.
    + destruct (until_settled t1) as [[[p o'] q]|]; [|discriminate].
      intros [= <- <- <-]. now rewrite (IH _ _ _ eq_refl).
Qed.

Lemma until_settled_app_none t1 t2 :
  until_settled t1 = None ->
  until_settled (t1 ++ t2) =
  match until_settled t2 with
  | Some (pre, o, post) => Some (t1 ++ pre, o, post)
  | None => None
  end.
Proof.
  induction t1 as [|ev t1 IH]; simpl.
  - intros _. destruct (until_settled t2) as [[[p o] q]|]; reflexivity.
  - destruct ev as [e|r x s].
    + destruct e; try discriminate;
        (destruct (until_settled t1) as [[[p o'] q]|]; [discriminate|];
         intros _; rewrite (IH eq_refl);
         destruct (until_settled t2) as [[[p o] q]|]; reflexivity).
    + destruct (until_settled t1) as [[[p o'] q]|]; [discriminate|].
      intros _. rewrite (IH eq_refl).
      destruct (until_settled t2) as [[[p o] q]|]; reflexivity.
Qed.

Lemma resumed_state_app st t1 t2 :
  resumed_state st (t1 ++ t2) = resumed_state (resumed_state st t1) t2.
Proof.
  revert st. induction t1 as [|[e|r x s] t1 IH]; intros st; simpl; auto.
Qed.

Lemma texts_console ls t : texts (console ls ++ t) = texts t.
Proof. induction ls; simpl; auto. Qed.

Lemma presences_console ls t : presences (console ls ++ t) = presences t.
Proof. induction ls; simpl; auto. Qed.

Lemma spawned_console ls t : spawned (console ls ++ t) = spawned t.
Proof. induction ls; simpl; auto. Qed.

Lemma resumed_state_console st ls t :
  resumed_state st (console ls ++ t) = resumed_state st t.
Proof. induction ls; simpl; auto. Qed.

Lemma until_settled_console ls t :
  until_settled (console ls ++ t) =
  match until_settled t with
  | Some (pre, o, post) => Some (console ls ++ pre, o, post)
  | None => None
  end.
Proof.
  induction ls as [|l ls IH]; simpl.
  - destruct (until_settled t) as [[[p o] q]|]; reflexivity.
  - rewrite IH. destruct (until_settled t) as [[[p o] q]|]; reflexivity.
Qed.

(* ================================================================= *)
(** ** Message router: properties *)

Lemma lookups_console ls t : lookups (console ls ++ t) = lookups t.
Proof. induction ls; simpl; auto. Qed.

Lemma rejected_texts_console ls t : rejected_texts (console ls ++ t) = rejected_texts t.
Proof. induction ls; simpl; auto. Qed.

Lemma start_errors_app t1 t2 :
  start_errors (t1 ++ t2) = start_errors t1 ++ start_errors t2.
Proof.
  induction t1 as [|[?|r a ?] t1 IH]; simpl; auto;
    destruct r; simpl; rewrite ?IH; auto;
    destruct a; simpl; rewrite ?IH; auto.
Qed.

Lemma start_errors_console ls t : start_errors (console ls ++ t) = start_errors t.
Proof. induction ls; simpl; auto. Qed.

Lemma until_settled_only_console ls : until_settled (console ls) = None.
Proof.
  rewrite <- (app_nil_r (console ls)), until_settled_console. reflexivity.
Qed.

Opaque askClaude lit substring0.

(** One step through a run: a case on the session handle, on a wired
    collaborator, on an answer of the rest of the system. *)
Ltac step :=
  match goal with
  | |- context [match socket ?s with _ => _ end] =>
      is_var s; let H := fresh "Hsock" in destruct (socket s) eqn:H
  | |- context [match onUserLookup ?s with _ => _ end] =>
      is_var s; let H := fresh "Hlook" in destruct (onUserLookup s) eqn:H
  | |- context [fst (fst (?env ?r ?s ?w0))] =>
      is_var s; is_var w0;
      let E := fresh "E" in
      destruct (env r s w0) as [[? ?] ?] eqn:E; simpl fst in *; simpl snd in *
  | |- context [match ?x with Returned _ => _ | Threw _ => _ end] =>
      is_var x; destruct x
  | |- context [match ?x with Some _ => _ | None => _ end] =>
      is_var x; destruct x
  | |- context [match ?x with tt => _ end] =>
      is_var x; destruct x
  | |- context [negb (truthy ?u)] =>
      let H := fresh "Htruthy" in destruct (truthy u) eqn:H
  end; simpl.

(** At the call of [askClaude]: name its run and bring in what is known
    of it. *)
Ltac dispatch_cases :=
  rewrite !run_pbind; simpl;
  match goal with
  | |- context [run ?env (askClaude ?q ?p ?u) ?s ?w] =>
      let Ht := fresh "Htexts" in
      let Hp := fresh "Hpres" in
      let Hc := fresh "Hcases" in
      destruct (askClaude_run env q p u s w) as (Ht & Hp & Hc);
      destruct (run env (askClaude q p u) s w) as [ra fa wa ta];
      simpl in Ht, Hp, Hc; simpl;
      destruct Hc as (pa & Hu & Hf & Htpa);
      rewrite <- !app_assoc;
      rewrite (until_settled_app_some _ _ _ _ _ Hu);
      rewrite ?texts_app, ?presences_app, ?Ht, ?Hp; simpl
  end.

Ltac unfold_process :=
  unfold process, lookupUser, try_catch, sendMessage, presenceSubscribe,
    sendPresenceUpdate, get, perform, ask, call, bind, ret; simpl.

Section Router.
Context {W : Type} (env : @Env W).

(** For a message that passes the filters, [handleMessage] writes to
    the console and runs the [try] statement. *)
Lemma handleMessage_eligible msg jid phone text st w :
  eligible msg jid phone text ->
  exists lines,
    run env (handleMessage msg) st w =
    let y := run env (process jid phone text) st w in
    mkRan (result y) (final y) (world y) (console lines ++ trace y).
Proof.
  intros (Hjid & Htj & Hgroup & Hphone & Htp & Htext & Htt).
  unfold handleMessage. rewrite Hjid. simpl truthy_opt. simpl opt_or_else.
  unfold or_else. rewrite Htj. simpl negb. rewrite Hgroup. simpl orb. cbv iota.
  rewrite Hphone. simpl truthy_opt. simpl opt_or_else.
  unfold or_else. rewrite Htp. simpl negb. cbv iota.
  rewrite Htext, Htt. simpl negb. cbv iota.
  destruct (negb (endsWith direct_suffix jid) && endsWith lid_suffix jid).
  - eexists [_; _]. unfold perform, bind. simpl.
    destruct (run env (process jid phone text) st w). reflexivity.
  - eexists [_]. unfold perform, ret, bind. simpl.
    destruct (run env (process jid phone text) st w). reflexivity.
Qed.

(** Every other message is dropped: at most a line on the console. *)
Lemma handleMessage_cases msg st w :
  (exists phone text, eligible msg (address msg) phone text) \/
  (exists lines,
      run env (handleMessage msg) st w = mkRan (Returned tt) st w (console lines)).
Proof.
  unfold handleMessage, address, eligible.
  destruct (remoteJid (key msg)) as [jid|] eqn:Hjid; simpl;
    [|right; now exists []].
  unfold or_else. destruct (truthy jid) eqn:Htj; simpl;
    [|right; now exists []].
  destruct (includes group_marker jid) eqn:Hg; simpl;
    [right; now exists []|].
  destruct (resolve_phone jid) as [phone|] eqn:Hphone; simpl.
  - unfold or_else. destruct (truthy phone) eqn:Htp; simpl.
    + destruct (truthy (message_text msg)) eqn:Htt; simpl.
      * left. exists phone, (message_text msg). repeat split; auto.
      * right.
        destruct (negb (endsWith direct_suffix jid) && endsWith lid_suffix jid);
          [eexists [_] | exists []]; reflexivity.
    + right.
      destruct (negb (endsWith direct_suffix jid) && endsWith lid_suffix jid);
        [eexists [_; _] | eexists [_]]; reflexivity.
  - right.
    destruct (negb (endsWith direct_suffix jid) && endsWith lid_suffix jid);
      [eexists [_; _] | eexists [_]]; reflexivity.
Qed.

Section Process.
Variables jid phone text : jsstring.

(** After a failed dispatch: the error on the console, and the fixed
    message if a session handle is there. *)
Lemma process_failure st w pre e post :
  let y := run env (process jid phone text) st w in
  until_settled (trace y) = Some (pre, Threw e, post) ->
  texts (trace y) =
    (if is_some (socket (resumed_state st pre))
     then [(jid, failure_message)] else []) /\
  In (EvDo (ConsoleError (lit "[WhatsApp] Error handling message:") e)) (trace y).
Proof.
  unfold_process. repeat step; try discriminate.
  all: dispatch_cases.
  all: repeat step; try discriminate.
  all: intros [= <- <- <-]; simpl; rewrite <- ?Hf.
  all: match goal with
       | H : socket ?x = _ |- context [socket ?x] => rewrite H
       end; simpl.
  all: split; [reflexivity|]; auto 20 using in_or_app, in_eq, in_cons.
Qed.

(** A throw of the generator or of [spawn] is a failed dispatch like
    any other: the promise is rejected with what was thrown. *)
Lemma process_start_error st w e more :
  let y := run env (process jid phone text) st w in
  start_errors (trace y) = e :: more ->
  exists pre post, until_settled (trace y) = Some (pre, Threw e, post).
Proof.
  unfold_process. repeat step; try discriminate.
  all: rewrite !run_pbind; simpl.
  all: match goal with
       | |- context [run ?env (askClaude ?q ?p ?u) ?s ?w] =>
           destruct (askClaude_run env q p u s w) as (_ & _ & pa & Hu & _);
           destruct (askClaude_start_errors env q p u s w)
             as [Hse|(e0 & Hse & Hres)];
           destruct (run env (askClaude q p u) s w) as [ra fa wa ta];
           simpl in Hu, Hse; simpl;
           rewrite <- !app_assoc;
           rewrite (until_settled_app_some _ _ _ _ _ Hu);
           rewrite ?start_errors_app, Hse; simpl
       end.
  all: try (simpl in Hres; subst ra; simpl).
  all: repeat step; try discriminate.
  all: intros [= <- <-]; eexists; eexists; reflexivity.
Qed.

(** After a successful dispatch: nothing was sent before; with a
    session handle the paused signal comes next, then the response
    or the fallback. *)
Lemma process_success st w pre v post :
  let y := run env (process jid phone text) st w in
  until_settled (trace y) = Some (pre, Returned v, post) ->
  texts pre = [] /\
  match socket (resumed_state st pre) with
  | Some s =>
      exists a st2 rest,
        post = EvCall (SendPresenceUpdate s Paused jid) a st2 :: rest /\
        forall m, In m (texts rest) ->
                  m = (jid, v) \/ m = (jid, failure_message)
  | None => presences post = []
  end.
Proof.
  unfold_process. repeat step; try discriminate.
  all: dispatch_cases.
  all: repeat step; try discriminate.
  all: intros [= <- <- <-]; simpl; rewrite <- ?Hf.
  all: match goal with
       | H : socket ?x = _ |- context [socket ?x] => rewrite H
       end; simpl.
  all: split; [assumption|].
  all: try reflexivity.
  all: do 3 eexists; (split; [reflexivity|]); simpl; intros m Hm.
  all: repeat (destruct Hm as [<-|Hm]; auto); contradiction.
Qed.

(** A sender the lookup does not know. *)
Lemma process_unauthorized st w asked st1 :
  let y := run env (process jid phone text) st w in
  lookups (trace y) = [(asked, Returned None, st1)] ->
  asked = phone /\
  spawned (trace y) = [] /\
  match socket st1 with
  | Some s =>
      (texts (trace y) = [(jid, registration_message phone)] \/
       texts (trace y) = [(jid, registration_message phone);
                          (jid, failure_message)]) /\
      (rejected_texts (trace y) = [] ->
       texts (trace y) = [(jid, registration_message phone)])
  | None => texts (trace y) = []
  end.
Proof.
  unfold_process. repeat step; try discriminate.
  all: intros [= <- <-]; try congruence.
  all: repeat split; auto; try discriminate.
Qed.
End Process.

Section Offline.
Hypothesis Hkeep : keeps_socket_null env.

Lemma quiet_ret {R} (r : R) : quiet env (Ret r).
Proof. intros st w H. simpl. auto. Qed.

Lemma quiet_do {R} e (k : Prog R) : quiet env k -> quiet env (Do e k).
Proof. intros Hk st w H. simpl. apply Hk, H. Qed.

Lemma quiet_call {R} r (k : Resp r -> Prog R) :
  (forall x s, texts [EvCall r x s] = []) ->
  (forall x, quiet env (k x)) ->
  quiet env (Call r k).
Proof.
  intros Hr Hk st w H. simpl.
  destruct (Hk (fst (fst (env r st w))) (snd (fst (env r st w)))
               (snd (env r st w)) (Hkeep r st w H)) as [Ht Hs].
  split; [|exact Hs].
  change (texts ([EvCall r (fst (fst (env r st w))) (snd (fst (env r st w)))]
                 ++ trace (run env (k (fst (fst (env r st w))))
                             (snd (fst (env r st w))) (snd (env r st w)))) = []).
  rewrite texts_app, Hr, Ht. reflexivity.
Qed.

Lemma quiet_pbind {A B} (p : Prog A) (f : A -> Prog B) :
  quiet env p -> (forall a, quiet env (f a)) -> quiet env (pbind p f).
Proof.
  intros Hp Hf st w H. rewrite run_pbind. simpl.
  destruct (Hp st w H) as [Ht Hs].
  destruct (Hf (result (run env p st w)) _ (world (run env p st w)) Hs)
    as [Ht' Hs'].
  rewrite texts_app, Ht, Ht'. auto.
Qed.

Lemma quiet_askClaude q p u : quiet env (askClaude q p u).
Proof.
  intros st w H. split.
  - apply askClaude_run.
  - apply reads_only_offline; auto. apply askClaude_reads_only.
Qed.

(** With the session handle missing, [sendMessage] does nothing. *)
Lemma quiet_sendMessage jid text : quiet env (sendMessage jid text).
Proof. intros st w H. unfold sendMessage, get, bind. simpl. rewrite H. auto. Qed.

Lemma quiet_yield : quiet env (ask Yield).
Proof. apply quiet_call; [reflexivity | intros; apply quiet_ret]. Qed.

Lemma quiet_presenceSubscribe jid : quiet env (presenceSubscribe jid).
Proof.
  intros st w H. unfold presenceSubscribe, get, bind. simpl. rewrite H.
  now apply quiet_yield.
Qed.

Lemma quiet_sendPresenceUpdate p jid : quiet env (sendPresenceUpdate p jid).
Proof.
  intros st w H. unfold sendPresenceUpdate, get, bind. simpl. rewrite H.
  now apply quiet_yield.
Qed.

Lemma quiet_perform e : quiet env (perform e).
Proof. apply quiet_do, quiet_ret. Qed.

Lemma quiet_lookupUser phone : quiet env (lookupUser phone).
Proof.
  intros st w H. unfold lookupUser, get, call, bind, ret. simpl.
  destruct (onUserLookup st) as [f|]; simpl; auto.
  pose proof (Hkeep (UserLookup f phone) st w H) as Hs.
  destruct (env (UserLookup f phone) st w) as [[[[r|]|e] s] w0]; simpl in *; auto.
Qed.

Lemma quiet_process jid phone text : quiet env (process jid phone text).
Proof.
  unfold process, try_catch, bind.
  repeat first
    [ apply quiet_ret
    | apply quiet_askClaude
    | apply quiet_sendMessage
    | apply quiet_presenceSubscribe
    | apply quiet_sendPresenceUpdate
    | apply quiet_perform
    | apply quiet_lookupUser
    | apply quiet_pbind; intros
    | match goal with
      | |- quiet _ (match ?x with _ => _ end) => destruct x
      | |- quiet _ (if ?b then _ else _) => destruct b
      end ].
Qed.

Lemma quiet_handleMessage msg : quiet env (handleMessage msg).
Proof.
  intros st w H.
  destruct (handleMessage_cases msg st w) as [(phone & text & He)|[lines Hl]].
  - destruct (handleMessage_eligible msg _ _ _ st w He) as [lines Hl].
    rewrite Hl. simpl. rewrite texts_console. now apply quiet_process.
  - rewrite Hl. simpl. rewrite <- (app_nil_r (console lines)), texts_console. auto.
Qed.
End Offline.
End Router.

Opaque process.

Section RouterClaims.
Context {W : Type} (env : @Env W).

(** C4 (amended): for every inbound message whose dispatch succeeds,
    nothing has been sent to the conversation before the dispatcher
    returns; if a session handle exists at that moment, the router's
    next action is the "paused" presence signal on the conversation
    address, and the only texts sent after it are the response or the
    fallback error string; if none exists, no presence is signalled. *)
Theorem paused_after_successful_dispatch msg st w pre v post :
  let x := run env (handleMessage msg) st w in
  until_settled (trace x) = Some (pre, Returned v, post) ->
  texts pre = [] /\
  match socket (resumed_state st pre) with
  | Some s =>
      exists a st2 rest,
        post = EvCall (SendPresenceUpdate s Paused (address msg)) a st2 :: rest /\
        forall m, In m (texts rest) ->
                  m = (address msg, v) \/ m = (address msg, failure_message)
  | None => presences post = []
  end.
Proof.
  destruct (handleMessage_cases env msg st w) as [(phone & text & He)|[lines Hl]].
  - destruct (handleMessage_eligible env msg _ _ _ st w He) as [lines Hl].
    rewrite Hl. simpl. rewrite until_settled_console.
    destruct (until_settled (trace (run env (process (address msg) phone text) st w)))
      as [[[p o] q]|] eqn:Hu; [|discriminate].
    intros [= <- -> <-]. rewrite resumed_state_console, texts_console.
    exact (process_success env _ _ _ st w _ _ _ Hu).
  - rewrite Hl. simpl. rewrite until_settled_only_console. discriminate.
Qed.

(** C5 (amended): a dispatch that fails, of whatever kind, ends in the
    rejection of its promise: the timer, an exit of the child, an error
    event, and also a throw of [spawn] or of the tool-configuration
    generator.  For every inbound message whose dispatch ends so, the
    error is written to the console and the router sends at most one
    message: exactly one, the fixed generic failure message, the same
    for every kind of failure, when a session handle exists at the
    moment the dispatch fails; none when no session handle exists. *)
Theorem failed_dispatch_reply msg st w :
  let x := run env (handleMessage msg) st w in
  (forall e more,
      start_errors (trace x) = e :: more ->
      exists pre post, until_settled (trace x) = Some (pre, Threw e, post)) /\
  (forall pre e post,
      until_settled (trace x) = Some (pre, Threw e, post) ->
      texts (trace x) =
        (if is_some (socket (resumed_state st pre))
         then [(address msg, failure_message)] else []) /\
      In (EvDo (ConsoleError (lit "[WhatsApp] Error handling message:") e))
         (trace x)).
Proof.
  destruct (handleMessage_cases env msg st w) as [(phone & text & He)|[lines Hl]].
  - destruct (handleMessage_eligible env msg _ _ _ st w He) as [lines Hl].
    rewrite Hl. simpl. split.
    + intros e more. rewrite start_errors_console, until_settled_console.
      intros Hse.
      destruct (process_start_error env _ _ _ st w e more Hse) as (p & q & Hu).
      rewrite Hu. eauto.
    + intros pre e post. rewrite until_settled_console.
      destruct (until_settled (trace (run env (process (address msg) phone text) st w)))
        as [[[p o] q]|] eqn:Hu; [|discriminate].
      intros [= <- -> <-]. rewrite resumed_state_console, texts_console.
      destruct (process_failure env _ _ _ st w _ _ _ Hu) as [Ht Hin].
      split; [exact Ht | apply in_or_app; right; exact Hin].
  - rewrite Hl. simpl. split.
    + intros e more.
      rewrite <- (app_nil_r (console lines)), start_errors_console. discriminate.
    + intros pre e post. rewrite until_settled_only_console. discriminate.
Qed.

(** C6 (amended): for every inbound message about whose resolved
    identifier the authorization lookup answers with no result, no
    backend subprocess is spawned, and the registration-instructions
    message contains the identifier.  If a session handle exists when
    the lookup has answered, that message is sent first, and it is the
    only message sent unless the transport rejects it (then the generic
    failure message may follow); if none exists nothing is sent. *)
Theorem unregistered_sender_reply msg st w phone st1 :
  let x := run env (handleMessage msg) st w in
  lookups (trace x) = [(phone, Returned None, st1)] ->
  resolve_phone (address msg) = Some phone /\
  spawned (trace x) = [] /\
  substring_of phone (registration_message phone) /\
  match socket st1 with
  | Some s =>
      (texts (trace x) = [(address msg, registration_message phone)] \/
       texts (trace x) = [(address msg, registration_message phone);
                          (address msg, failure_message)]) /\
      (rejected_texts (trace x) = [] ->
       texts (trace x) = [(address msg, registration_message phone)])
  | None => texts (trace x) = []
  end.
Proof.
  destruct (handleMessage_cases env msg st w) as [(ph & text & He)|[lines Hl]].
  - destruct (handleMessage_eligible env msg _ _ _ st w He) as [lines Hl].
    rewrite Hl. simpl.
    rewrite lookups_console, spawned_console, texts_console, rejected_texts_console.
    intros Hlook.
    destruct (process_unauthorized env _ _ _ st w _ _ Hlook) as (-> & Hsp & Hrest).
    repeat split; auto.
    + apply He.
    + unfold substring_of, registration_message. eexists. eexists. reflexivity.
  - rewrite Hl. simpl. rewrite <- (app_nil_r (console lines)), lookups_console.
    discriminate.
Qed.

(** C10: with no session handle [sendMessage] returns at once, sending
    nothing and throwing nothing; hence, while the session handle stays
    missing, no message of the router (registration reply, response,
    fallback) reaches the transport. *)
Theorem sendMessage_without_socket :
  (forall st w jid text,
      socket st = None ->
      run env (sendMessage jid text) st w = mkRan (Returned tt) st w []) /\
  (forall msg st w,
      keeps_socket_null env ->
      socket st = None ->
      texts (trace (run env (handleMessage msg) st w)) = []).
Proof.
  split.
  - intros st w jid text H. unfold sendMessage, get, bind. simpl. now rewrite H.
  - intros msg st w Hkeep H. now apply quiet_handleMessage.
Qed.
End RouterClaims.

Transparent askClaude lit substring0 process.

(* ================================================================= *)
(** ** Session supervisor: properties *)

Section Supervisor.
Context {W : Type} (env : @Env W).

(** C8: [initialize] called while a session handle exists, or while
    initialization is in progress, returns at once: the fields are left
    as they are, no transport session is created, no listener is
    subscribed, nothing at all is done. *)
Theorem initialize_idempotent st w :
  is_some (socket st) || initializing st = true ->
  let x := run env initialize st w in
  x = mkRan (Returned tt) st w [] /\
  sessions (trace x) = [] /\
  subscriptions (trace x) = [].
Proof.
  intros H. unfold initialize, get, bind. simpl. rewrite H. auto.
Qed.

(** From a state with no session handle and no initialization in
    progress, [initialize] creates at most one transport session, and
    exactly one, with its three subscriptions, when it completes. *)
Lemma initialize_fresh st w :
  socket st = None ->
  initializing st = false ->
  let y := run env initialize st w in
  length (sessions (trace y)) <= 1 /\
  (result y = Returned tt ->
   length (sessions (trace y)) = 1 /\
   length (subscriptions (trace y)) = 3 /\
   is_some (socket (final y)) = true /\
   initializing (final y) = false).
Proof.
  intros Hs Hi. unfold initialize, get, modify, perform, ask, call, bind, ret.
  simpl. rewrite Hs, Hi. simpl.
  destruct (env AuthDirExists _ _) as [[present st1] w1]; simpl.
  destruct present; simpl.
  - destruct (env UseMultiFileAuthState _ _) as [[[auth|e] st2] w2]; simpl;
      [|split; [lia|discriminate]].
    destruct (env (MakeWASocket auth) _ _) as [[[s|e] st3] w3]; simpl;
      [|split; [lia|discriminate]].
    auto.
  - destruct (env AuthDirMkdir _ _) as [[[[]|e] st2] w2]; simpl;
      [|split; [lia|discriminate]].
    destruct (env UseMultiFileAuthState _ _) as [[[auth|e] st3] w3]; simpl;
      [|split; [lia|discriminate]].
    destruct (env (MakeWASocket auth) _ _) as [[[s|e] st4] w4]; simpl;
      [|split; [lia|discriminate]].
    auto.
Qed.

Lemma shouldReconnect_reason loggedOut u :
  shouldReconnect loggedOut u = true <-> reason u <> Some loggedOut.
Proof.
  unfold shouldReconnect, reason.
  destruct (lastDisconnect_error u) as [e|]; [|split; [discriminate | reflexivity]].
  destruct (statusCode e) as [c|]; [|split; [discriminate | reflexivity]].
  rewrite negb_true_iff, Z.eqb_neq. split; congruence.
Qed.

(** The close branch of the [connection.update] listener. *)
Lemma close_run loggedOut u st w :
  connection u = Some ConnClose ->
  let x := run env (on_connection_update loggedOut u) st w in
  result x = Returned tt /\
  world x = w /\
  connected (status (final x)) = false /\
  timers (trace x) =
    (if shouldReconnect loggedOut u then [(CbInitialize, 3000%Z)] else []) /\
  socket (final x) = (if shouldReconnect loggedOut u then None else socket st) /\
  initializing (final x) =
    (if shouldReconnect loggedOut u then false else initializing st).
Proof.
  intros Hc. unfold on_connection_update, get, modify, perform, bind, ret.
  rewrite Hc.
  destruct (truthy_opt (qr u)); simpl;
    destruct (shouldReconnect loggedOut u); simpl; auto 10.
Qed.

Lemma disconnect_run st w :
  let d := run env disconnect st w in
  result d = Returned tt ->
  socket (final d) = None /\ initializing (final d) = false.
Proof.
  unfold disconnect, get, modify, call, bind, ret. simpl.
  destruct (socket st) as [s|] eqn:Hs; simpl; auto.
  destruct (env (SocketLogout s) _ _) as [[[[]|e] st1] w1]; simpl;
    [auto | discriminate].
Qed.

(** C7: on a connection-close event, (a) with the logged-out reason
    code no timer is set and the session handle stays, so that
    [initialize] does nothing until [disconnect] has cleared the
    handle; (b) with any other reason code, or none, the session handle
    is cleared and exactly one timer is set, which calls [initialize]
    after 3000 ms; fired in that state, it creates at most one
    transport session, and exactly one when it completes. *)
Theorem connection_close_reconnect loggedOut u st w :
  connection u = Some ConnClose ->
  let x := run env (on_connection_update loggedOut u) st w in
  (reason u = Some loggedOut ->
   timers (trace x) = [] /\
   socket (final x) = socket st /\
   (is_some (socket st) = true ->
    forall w', run env initialize (final x) w' = mkRan (Returned tt) (final x) w' []) /\
   (forall w',
       let d := run env disconnect (final x) w' in
       result d = Returned tt ->
       socket (final d) = None /\ initializing (final d) = false)) /\
  (reason u <> Some loggedOut ->
   socket (final x) = None /\
   timers (trace x) = [(CbInitialize, 3000%Z)] /\
   forall w',
     let y := run env (fire CbInitialize) (final x) w' in
     length (sessions (trace y)) <= 1 /\
     (result y = Returned tt ->
      length (sessions (trace y)) = 1 /\
      length (subscriptions (trace y)) = 3 /\
      is_some (socket (final y)) = true)).
Proof.
  intros Hc.
  destruct (close_run loggedOut u st w Hc) as (_ & _ & _ & Ht & Hs & Hi).
  pose proof (shouldReconnect_reason loggedOut u) as Hr.
  split.
  - intros Hreason.
    destruct (shouldReconnect loggedOut u).
    + exfalso. now apply (proj1 Hr eq_refl).
    + repeat split; auto.
      * intros Hsome w'. unfold initialize, get, bind. simpl.
        rewrite Hs, Hsome. reflexivity.
      * apply (disconnect_run (final (run env (on_connection_update loggedOut u) st w))
                              w' H).
      * apply (disconnect_run (final (run env (on_connection_update loggedOut u) st w))
                              w' H).
  - intros Hreason.
    destruct (shouldReconnect loggedOut u); [|now specialize (proj2 Hr Hreason)].
    repeat split; auto.
    + now apply initialize_fresh.
    + now apply initialize_fresh.
    + now apply initialize_fresh.
    + now apply initialize_fresh.
Qed.
End Supervisor.

(* ================================================================= *)
(** ** Concrete runs: the properties at work *)

Lemma scripted_keeps_socket_null sc : keeps_socket_null (scripted sc).
Proof.
  intros r st w H. unfold scripted. simpl.
  destruct (connection_lost_during sc r); [reflexivity | exact H].
Qed.

(** C1, as stated, fails also on a run: the started process does not get
    the argument order of the interface description. *)
Lemma mcp_config_not_after_max_turns :
  spawned (trace (run (scripted answered)
                      (askClaude (lit "status?") sample_phone (lit "user-1"))
                      connected_service tt))
  <> [ (lit "claude",
        spawn_args_spec (systemPrompt sample_phone (lit "user-1"))
                        (lit "status?") (lit "/tmp/mcp.json")) ].
Proof. vm_compute. discriminate. Qed.

Lemma askClaude_argument_list_witness :
  spawned (trace (run (scripted answered)
                      (askClaude (lit "status?") sample_phone (lit "user-1"))
                      connected_service tt)) =
  [ (lit "claude",
     [ lit "--print";
       lit "--model"; lit "sonnet";
       lit "--dangerously-skip-permissions";
       lit "--mcp-config"; lit "/tmp/mcp.json";
       lit "--system-prompt"; systemPrompt sample_phone (lit "user-1");
       lit "--max-turns"; lit "5";
       lit "--"; lit "status?" ]) ].
Proof.
  apply (askClaude_argument_list (scripted answered) (lit "status?") sample_phone
           (lit "user-1") connected_service tt (lit "/tmp/mcp.json")).
  reflexivity.
Defined.

Lemma dispatch_on_exit_witness :
  result (run (scripted answered)
              (askClaude (lit "status?") sample_phone (lit "user-1"))
              connected_service tt)
  = Returned (lit "Project X is idle") /\
  result (run (scripted crashed)
              (askClaude (lit "status?") sample_phone (lit "user-1"))
              connected_service tt)
  = Threw (mkError (lit "Claude exited with code 1")) /\
  result (run (scripted complained)
              (askClaude (lit "status?") sample_phone (lit "user-1"))
              connected_service tt)
  = Threw (mkError (lit "not logged in")).
Proof.
  split; [|split].
  - apply (proj1 (dispatch_on_exit (scripted answered) (lit "status?") sample_phone
                    (lit "user-1") connected_service tt)).
    exists [StdoutData (lit "Project X is idle
")], [].
    split; [reflexivity | split; [reflexivity | split; [|reflexivity]]].
    vm_compute. discriminate.
  - apply (proj2 (dispatch_on_exit (scripted crashed) (lit "status?") sample_phone
                    (lit "user-1") connected_service tt)
             [StdoutData (lit "partial")] (Some 1%Z) []);
      [reflexivity | reflexivity | left; discriminate].
  - apply (proj2 (dispatch_on_exit (scripted complained) (lit "status?") sample_phone
                    (lit "user-1") connected_service tt)
             [StderrData (lit "not logged in")] (Some 0%Z) []);
      [reflexivity | reflexivity | right; reflexivity].
Defined.

(** C3, as stated, fails.  A child that is still running when the
    timer fires is sent the termination signal, and the dispatch
    completes in that same callback: no exit of the child has been
    reported, and nothing waits for one.  A child that ignores the
    signal, or takes its time, outlives the call. *)
Lemma timeout_exit_not_confirmed :
  let x := run (scripted hanging)
               (askClaude (lit "status?") sample_phone (lit "user-1"))
               connected_service tt in
  result x = Threw (mkError (lit "Request timed out")) /\
  spawned (trace x) <> [] /\
  reported_exits (trace x) = [] /\
  exists pre,
    trace x = pre ++ [EvDo ChildKill;
                      EvDo (PromiseReject (mkError (lit "Request timed out")))].
Proof.
  vm_compute. split; [reflexivity | split; [discriminate | split; [reflexivity|]]].
  eexists (_ :: _ :: _ :: _ :: _ :: _ :: _ :: _ :: [_]). reflexivity.
Qed.

Lemma askClaude_timeout_witness :
  let x := run (scripted hanging)
               (askClaude (lit "status?") sample_phone (lit "user-1"))
               connected_service tt in
  result x = Threw (mkError (lit "Request timed out")) /\
  timers (trace x) = [(CbKillAndReject, 120000%Z)] /\
  kills (trace x) = 1 /\
  reported_exits (trace x) = [] /\
  exists pre,
    trace x = pre ++ [EvDo ChildKill;
                      EvDo (PromiseReject (mkError (lit "Request timed out")))].
Proof.
  apply (askClaude_timeout (scripted hanging) (lit "status?") sample_phone
           (lit "user-1") connected_service tt []); reflexivity.
Defined.

(** C4, as stated, fails.  When the backend hangs and the dispatch times
    out, the router signals no presence after the dispatcher returns: it
    sends the fallback at once.  And when the dispatch succeeds but the
    connection closed while the backend ran, no presence is signalled
    either. *)
Lemma paused_not_on_every_outcome :
  (let x := run (scripted hanging) (handleMessage sample_message)
                connected_service tt in
   presences (trace x) = [(Composing, sample_jid)] /\
   texts (trace x) = [(sample_jid, failure_message)] /\
   match until_settled (trace x) with
   | Some (_, o, post) =>
       o = timed_out /\ presences post = [] /\
       texts post = [(sample_jid, failure_message)]
   | None => False
   end) /\
  (let x := run (scripted answered_offline) (handleMessage sample_message)
                connected_service tt in
   presences (trace x) = [(Composing, sample_jid)] /\
   match until_settled (trace x) with
   | Some (_, o, post) =>
       o = Returned (lit "Project X is idle") /\ presences post = []
   | None => False
   end).
Proof. vm_compute. auto 10. Qed.

Lemma paused_after_successful_dispatch_witness :
  let x := run (scripted answered) (handleMessage sample_message)
               connected_service tt in
  exists pre post,
    until_settled (trace x) = Some (pre, Returned (lit "Project X is idle"), post) /\
    texts pre = [] /\
    match socket (resumed_state connected_service pre) with
    | Some s =>
        exists a st2 rest,
          post = EvCall (SendPresenceUpdate s Paused (address sample_message)) a st2
                 :: rest /\
          forall m, In m (texts rest) ->
                    m = (address sample_message, lit "Project X is idle") \/
                    m = (address sample_message, failure_message)
    | None => presences post = []
    end.
Proof.
  intros x.
  assert (H : exists pre post,
             until_settled (trace x)
             = Some (pre, Returned (lit "Project X is idle"), post))
    by (vm_compute; eexists; eexists; reflexivity).
  destruct H as (pre & post & H). exists pre, post. split; [exact H|].
  exact (paused_after_successful_dispatch (scripted answered) sample_message
           connected_service tt pre _ post H).
Defined.

(** C5, as stated, fails: when the connection closes while the backend
    runs and the backend then fails, the user is sent nothing. *)
Lemma failure_reply_dropped_offline :
  let x := run (scripted failed_offline) (handleMessage sample_message)
               connected_service tt in
  texts (trace x) = [] /\
  match until_settled (trace x) with
  | Some (_, o, _) => o = Threw (mkError (lit "boom"))
  | None => False
  end.
Proof. vm_compute. auto. Qed.

Lemma failed_dispatch_reply_witness :
  (let x := run (scripted hanging) (handleMessage sample_message)
                connected_service tt in
   exists pre post,
     until_settled (trace x)
     = Some (pre, Threw (mkError (lit "Request timed out")), post) /\
     texts (trace x) =
       (if is_some (socket (resumed_state connected_service pre))
        then [(address sample_message, failure_message)] else []) /\
     In (EvDo (ConsoleError (lit "[WhatsApp] Error handling message:")
                            (mkError (lit "Request timed out")))) (trace x)) /\
  (let x := run spawn_refused (handleMessage sample_message)
                connected_service tt in
   exists e pre post,
     start_errors (trace x) = [e] /\
     until_settled (trace x) = Some (pre, Threw e, post) /\
     texts (trace x) =
       (if is_some (socket (resumed_state connected_service pre))
        then [(address sample_message, failure_message)] else []) /\
     In (EvDo (ConsoleError (lit "[WhatsApp] Error handling message:") e))
        (trace x)).
Proof.
  split.
  - intros x.
    assert (H : exists pre post,
               until_settled (trace x)
               = Some (pre, Threw (mkError (lit "Request timed out")), post))
      by (vm_compute; eexists; eexists; reflexivity).
    destruct H as (pre & post & H). exists pre, post. split; [exact H|].
    exact (proj2 (failed_dispatch_reply (scripted hanging) sample_message
                    connected_service tt) pre _ post H).
  - intros x.
    assert (Hse : exists e, start_errors (trace x) = [e])
      by (vm_compute; eexists; reflexivity).
    destruct Hse as [e Hse].
    destruct (proj1 (failed_dispatch_reply spawn_refused sample_message
                       connected_service tt) e [] Hse) as (pre & post & Hu).
    exists e, pre, post. split; [exact Hse | split; [exact Hu|]].
    exact (proj2 (failed_dispatch_reply spawn_refused sample_message
                    connected_service tt) pre e post Hu).
Defined.

(** C6, as stated, fails: when the connection closes during the lookup,
    the unregistered sender gets no reply at all. *)
Lemma registration_reply_dropped_offline :
  let x := run (scripted unregistered_offline) (handleMessage sample_message)
               connected_service tt in
  lookups (trace x)
  = [(sample_phone, Returned None, set_socket None connected_service)] /\
  texts (trace x) = [].
Proof. vm_compute. auto. Qed.

Lemma unregistered_sender_reply_witness :
  let x := run (scripted unregistered) (handleMessage sample_message)
               connected_service tt in
  resolve_phone (address sample_message) = Some sample_phone /\
  spawned (trace x) = [] /\
  substring_of sample_phone (registration_message sample_phone) /\
  (texts (trace x) = [(address sample_message, registration_message sample_phone)] \/
   texts (trace x) = [(address sample_message, registration_message sample_phone);
                      (address sample_message, failure_message)]) /\
  (rejected_texts (trace x) = [] ->
   texts (trace x) = [(address sample_message, registration_message sample_phone)]).
Proof.
  exact (unregistered_sender_reply (scripted unregistered) sample_message
           connected_service tt sample_phone connected_service eq_refl).
Defined.

Lemma connection_close_reconnect_witness :
  let x := run (scripted answered) (on_connection_update 401%Z lost_connection)
               connected_service tt in
  socket (final x) = None /\
  timers (trace x) = [(CbInitialize, 3000%Z)] /\
  length (sessions (trace (run (scripted answered) (fire CbInitialize) (final x) tt)))
  = 1.
Proof.
  intros x.
  destruct (connection_close_reconnect (scripted answered) 401%Z lost_connection
              connected_service tt eq_refl) as [_ H].
  destruct H as (Hs & Ht & Hfire); [vm_compute; discriminate|].
  split; [exact Hs | split; [exact Ht |]].
  destruct (Hfire tt) as [_ Hone]. apply Hone. reflexivity.
Defined.

Lemma initialize_idempotent_witness :
  let x := run (scripted answered) initialize connected_service tt in
  x = mkRan (Returned tt) connected_service tt [] /\
  sessions (trace x) = [] /\
  subscriptions (trace x) = [].
Proof.
  exact (initialize_idempotent (scripted answered) connected_service tt eq_refl).
Defined.

Lemma sendMessage_without_socket_witness :
  run (scripted unregistered)
      (sendMessage sample_jid (registration_message sample_phone)) new_service tt
  = mkRan (Returned tt) new_service tt [] /\
  texts (trace (run (scripted unregistered) (handleMessage sample_message)
                    new_service tt)) = [].
Proof.
  destruct (sendMessage_without_socket (scripted unregistered)) as [Hsend Hrouter].
  split.
  - apply Hsend. reflexivity.
  - apply Hrouter; [apply scripted_keeps_socket_null | reflexivity].
Defined.

(* ================================================================= *)
(** ** Further properties: strings and the dispatch promise *)

Lemma trimStart_head (s : jsstring) (c : char16) :
  hd_error (trimStart s) = Some c -> isWhiteSpace c = false.
Proof.
  induction s as [|a s IH]; simpl; [discriminate|].
  destruct (isWhiteSpace a) eqn:Ha; [exact IH|].
  simpl. intros [= <-]. exact Ha.
Qed.

Lemma trimStart_snoc (u : jsstring) (c : char16) :
  isWhiteSpace c = false -> trimStart (u ++ [c]) = trimStart u ++ [c].
Proof.
  intros Hc. induction u as [|a u IH]; simpl.
  - now rewrite Hc.
  - destruct (isWhiteSpace a); [exact IH | reflexivity].
Qed.

(** What [trim] returns neither starts nor ends with white space. *)
Lemma trim_ends (t : jsstring) :
  (forall c, hd_error (trim t) = Some c -> isWhiteSpace c = false) /\
  (forall c, hd_error (rev (trim t)) = Some c -> isWhiteSpace c = false).
Proof.
  unfold trim, trimEnd. split; intros c.
  - destruct (trimStart t) as [|a t'] eqn:Ht; [discriminate|].
    assert (Ha : isWhiteSpace a = false)
      by (apply (trimStart_head t); now rewrite Ht).
    simpl rev. rewrite trimStart_snoc by exact Ha.
    rewrite rev_app_distr. simpl. now intros [= <-].
  - rewrite rev_involutive. apply trimStart_head.
Qed.

Lemma captured_chunks (b : Buffers) (evs : list ChildEvent) :
  stdout (captured b evs) = stdout b ++ concat (stdout_chunks evs) /\
  stderr (captured b evs) = stderr b ++ concat (stderr_chunks evs).
Proof.
  revert b. induction evs as [|[d|d|code|err] evs IH]; intros b; simpl.
  - now rewrite !app_nil_r.
  - destruct (IH (mkBuffers (stdout b ++ d) (stderr b))) as [Ho He].
    rewrite Ho, He. simpl. now rewrite app_assoc.
  - destruct (IH (mkBuffers (stdout b) (stderr b ++ d))) as [Ho He].
    rewrite Ho, He. simpl. now rewrite app_assoc.
  - apply IH.
  - apply IH.
Qed.

Lemma buffers_eq (a b : Buffers) :
  stdout a = stdout b -> stderr a = stderr b -> a = b.
Proof. destruct a, b. simpl. now intros -> ->. Qed.

(** X1: the stream listeners only concatenate.  A chunk event carries
    the text [data.toString()] made of one chunk, decoded on its own;
    what a close settles the promise to depends on these texts only
    through their concatenation, stream by stream, in order of arrival:
    how the two streams interleave does not matter, and neither does
    what follows the close. *)
Theorem close_outcome_concatenation (pre1 pre2 rest1 rest2 : list ChildEvent)
        (code : option Z) :
  output_only pre1 = true ->
  output_only pre2 = true ->
  concat (stdout_chunks pre1) = concat (stdout_chunks pre2) ->
  concat (stderr_chunks pre1) = concat (stderr_chunks pre2) ->
  outcome (promise_run empty_buffers (pre1 ++ Close code :: rest1)) =
  outcome (promise_run empty_buffers (pre2 ++ Close code :: rest2)) /\
  before (promise_run empty_buffers (pre1 ++ Close code :: rest1)) =
  before (promise_run empty_buffers (pre2 ++ Close code :: rest2)).
Proof.
  intros H1 H2 Hout Herr.
  rewrite !promise_run_close by assumption.
  assert (captured empty_buffers pre1 = captured empty_buffers pre2) as ->.
  { apply buffers_eq.
    - rewrite (proj1 (captured_chunks _ pre1)), (proj1 (captured_chunks _ pre2)).
      now rewrite Hout.
    - rewrite (proj2 (captured_chunks _ pre1)), (proj2 (captured_chunks _ pre2)).
      now rewrite Herr. }
  split; reflexivity.
Qed.

Lemma close_outcome_concatenation_witness :
  outcome (promise_run empty_buffers
    ([StdoutData (lit " Project X"); StderrData (lit "warn"); StdoutData (lit " is idle ")]
       ++ Close (Some 0%Z) :: [])) =
  outcome (promise_run empty_buffers
    ([StderrData (lit "warn"); StdoutData (lit " Project X"); StdoutData (lit " is idle ")]
       ++ Close (Some 0%Z) :: [Close (Some 1%Z)])) /\
  before (promise_run empty_buffers
    ([StdoutData (lit " Project X"); StderrData (lit "warn"); StdoutData (lit " is idle ")]
       ++ Close (Some 0%Z) :: [])) =
  before (promise_run empty_buffers
    ([StderrData (lit "warn"); StdoutData (lit " Project X"); StdoutData (lit " is idle ")]
       ++ Close (Some 0%Z) :: [Close (Some 1%Z)])).
Proof. apply close_outcome_concatenation; reflexivity. Defined.

Lemma endsWith_direct_lid (id : jsstring) :
  endsWith direct_suffix (id ++ lid_suffix) = false.
Proof. unfold endsWith. rewrite rev_app_distr. reflexivity. Qed.

(** X2: an address of the linked-device form that carries ["@lid"] at
    its end only resolves to all the text before that suffix, verbatim:
    a colon and what follows it are kept, unlike in the direct form. *)
Theorem resolve_phone_lid (id : jsstring) :
  occurs_only_at_end lid_suffix (id ++ lid_suffix) = true ->
  resolve_phone (id ++ lid_suffix) = Some id.
Proof.
  intros Honce. unfold resolve_phone.
  rewrite endsWith_direct_lid.
  assert (endsWith lid_suffix (id ++ lid_suffix) = true) as ->
    by (apply endsWith_true; now exists id).
  unfold occurs_only_at_end in Honce. apply negb_true_iff in Honce.
  rewrite replace_suffix; [reflexivity | discriminate | assumption].
Qed.

Lemma resolve_phone_lid_witness :
  resolve_phone (lit "98765432101234:7" ++ lid_suffix)
  = Some (lit "98765432101234:7").
Proof. apply resolve_phone_lid. reflexivity. Defined.

(* ================================================================= *)
(** ** Further properties: the dispatcher *)

Lemma kills_effects_settle (o : Outcome jsstring) : kills [EvDo (settle o)] = 0.
Proof. destruct o; reflexivity. Qed.

Lemma promise_run_kills (b : Buffers) (evs : list ChildEvent) :
  kills (map EvDo (before (promise_run b evs))) = if output_only evs then 1 else 0.
Proof.
  revert b. induction evs as [|[d|d|code|err] evs IH]; intros b;
    unfold promise_run; fold promise_run; simpl; auto.
  destruct (on_close b code); reflexivity.
Qed.

Lemma late_kills (b : Buffers) (evs : list ChildEvent) :
  kills (map EvDo (late b evs)) = 1.
Proof.
  revert b. induction evs as [|[d|d|code|err] evs IH]; intros b; simpl; auto.
  destruct (on_close b code); simpl; auto.
Qed.

Lemma promise_run_kills_after (b : Buffers) (evs : list ChildEvent) :
  kills (map EvDo (after (promise_run b evs))) = if output_only evs then 0 else 1.
Proof.
  revert b. induction evs as [|[d|d|code|err] evs IH]; intros b;
    unfold promise_run; fold promise_run; simpl; auto using late_kills.
Qed.

Lemma promise_run_error (b : Buffers) (pre rest : list ChildEvent) (err : JsError) :
  output_only pre = true ->
  promise_run b (pre ++ Error err :: rest) =
  mkPromise [PromiseReject err] (Threw err) (late (captured b pre) rest).
Proof.
  revert b. induction pre as [|[d|d|c|e] pre IH]; intros b Hout;
    simpl in Hout; try discriminate; simpl app;
    unfold promise_run; fold promise_run; auto.
Qed.

Section DispatcherMore.
Context {W : Type} (env : @Env W).
Variables question phone uid : jsstring.

(** The end of [askClaude]: the effects of the listeners, then the
    settlement handed to the caller. *)
Lemma run_settled (evs : list ChildEvent) st w :
  run env
    (pbind (perform_all (before (promise_run empty_buffers evs)))
       (fun o : Outcome unit =>
          match o with
          | Returned _ => Ret (outcome (promise_run empty_buffers evs))
          | Threw e => Ret (Threw e)
          end)) st w =
  mkRan (outcome (promise_run empty_buffers evs)) st w
        (map EvDo (before (promise_run empty_buffers evs))).
Proof.
  pose proof (run_perform_all env (before (promise_run empty_buffers evs))
                (Ret (outcome (promise_run empty_buffers evs))) st w) as Hp.
  unfold bind in Hp. rewrite Hp. simpl. now rewrite app_nil_r.
Qed.

Lemma spawned_calls_effects es : spawn_calls (map EvDo es) = [].
Proof. induction es; simpl; auto. Qed.

Lemma homes_effects es : homes (map EvDo es) = [].
Proof. induction es; simpl; auto. Qed.

Lemma ops_effects es : ops (map EvDo es) = [].
Proof. induction es; simpl; auto. Qed.

Lemma timers_settled (b : Buffers) (evs : list ChildEvent) :
  timers (map EvDo (before (promise_run b evs))) = [].
Proof.
  revert b. induction evs as [|[d|d|code|err] evs IH]; intros b;
    unfold promise_run; fold promise_run; simpl; auto.
  destruct (on_close b code); reflexivity.
Qed.

(** One walk through [askClaude]: the kills, the start of the child and
    its environment, the timer. *)
Lemma askClaude_calls st w :
  let x := run env (askClaude question phone uid) st w in
  kills (trace x) = (if existsb output_only (child_events (trace x)) then 1 else 0) /\
  length (child_events (trace x)) <= 1 /\
  timers (trace x) =
    map (fun _ => (CbKillAndReject, 120000%Z)) (child_events (trace x)) /\
  (homes (trace x) = [] /\ spawn_calls (trace x) = [] /\ ops (trace x) = [] /\
   child_events (trace x) = [] \/
   exists path h,
     homes (trace x) = [h] /\
     ops (trace x) = [OpSpawn uid] /\
     spawn_calls (trace x) =
       [(lit "claude", spawn_args (systemPrompt phone uid) question path,
         opt_or_else h (lit "/home/claude"), uid)]) /\
  (forall s, result x = Returned s -> exists evs, child_events (trace x) = [evs]).
Proof.
  unfold askClaude, rejecting, try_catch, throw, get, ask, perform, call, bind. simpl.
  destruct (onGetMcpConfig st) as [g|]; simpl.
  - next_answer. destruct x as [path|e]; simpl.
    + next_answer. next_answer. destruct x0 as [[]|e]; simpl.
      * next_answer. rewrite run_settled. simpl.
        rewrite promise_run_kills, child_events_effects, timers_settled,
          spawned_calls_effects, homes_effects, ops_effects.
        rewrite orb_false_r.
        repeat split; auto; [right; eauto | eauto].
      * repeat split; auto; [right; eauto | discriminate].
    + repeat split; auto; discriminate.
  - next_answer. next_answer. destruct x0 as [[]|e]; simpl.
    + next_answer. rewrite run_settled. simpl.
      rewrite promise_run_kills, child_events_effects, timers_settled,
        spawned_calls_effects, homes_effects, ops_effects.
      rewrite orb_false_r.
      repeat split; auto; [right; eauto | eauto].
    + repeat split; auto; [right; eauto | discriminate].
Qed.

(** X3: [child.kill()] is called exactly once for every dispatch that
    got as far as waiting for the child, whatever the child did: the
    timer is never cleared.  The call is made during the dispatch
    exactly when the timer is what settles the promise; otherwise it is
    made after the dispatch has completed.  A dispatch that did not get
    that far kills nothing. *)
Theorem askClaude_kills_once st w :
  let x := run env (askClaude question phone uid) st w in
  kills (trace x) + kills (afterwards (trace x)) = length (child_events (trace x)) /\
  length (child_events (trace x)) <= 1 /\
  kills (trace x) = (if existsb output_only (child_events (trace x)) then 1 else 0).
Proof.
  intros x. destruct (askClaude_calls st w) as (Hk & Hlen & _). fold x in Hk, Hlen.
  split; [|split; assumption].
  rewrite Hk. unfold afterwards.
  destruct (child_events (trace x)) as [|evs [|evs' more]]; simpl in *.
  - reflexivity.
  - rewrite app_nil_r, promise_run_kills_after, orb_false_r.
    destruct (output_only evs); reflexivity.
  - lia.
Qed.

(** X4: an [error] event of the child that arrives before any close
    rejects the dispatch with that very error, whatever output was
    captured so far.  The child is not killed during the dispatch; the
    timer, which is not cleared, still calls [child.kill()] once
    afterwards. *)
Theorem askClaude_error_event st w (pre rest : list ChildEvent) (err : JsError) :
  let x := run env (askClaude question phone uid) st w in
  child_events (trace x) = [pre ++ Error err :: rest] ->
  output_only pre = true ->
  result x = Threw err /\
  kills (trace x) = 0 /\
  kills (afterwards (trace x)) = 1.
Proof.
  intros x Hev Hout.
  assert (Hnot : output_only (pre ++ Error err :: rest) = false).
  { unfold output_only. rewrite forallb_app. simpl. now rewrite andb_false_r. }
  split; [|split].
  - unfold x. rewrite (askClaude_result env question phone uid st w _ Hev).
    now rewrite promise_run_error.
  - destruct (askClaude_calls st w) as (Hk & _). fold x in Hk.
    rewrite Hk, Hev. simpl. now rewrite orb_false_r, Hnot.
  - unfold afterwards. rewrite Hev. simpl.
    now rewrite app_nil_r, promise_run_kills_after, Hnot.
Qed.

(** X5: when the tool-configuration generator throws, the dispatch
    throws the same error; no child is started and no timer is set. *)
Theorem askClaude_generator_throws st w (e : JsError) :
  config_path env st w = Threw e ->
  let x := run env (askClaude question phone uid) st w in
  result x = Threw e /\ spawned (trace x) = [] /\ timers (trace x) = [] /\
  kills (trace x) = 0.
Proof.
  unfold config_path, askClaude, get, ask, perform, call, bind. simpl.
  destruct (onGetMcpConfig st) as [g|]; [|discriminate]. simpl.
  destruct (env (McpConfigGenerator g) st w) as [[a st1] w1]. simpl.
  intros ->. simpl. auto.
Qed.

(** X6: a dispatch that resolves hands back a text that is not empty
    and neither starts nor ends with white space. *)
Theorem askClaude_response_trimmed st w (s : jsstring) :
  let x := run env (askClaude question phone uid) st w in
  result x = Returned s ->
  s <> [] /\
  (forall c, hd_error s = Some c -> isWhiteSpace c = false) /\
  (forall c, hd_error (rev s) = Some c -> isWhiteSpace c = false).
Proof.
  intros x Hres.
  destruct (askClaude_calls st w) as (_ & _ & _ & _ & Hwait).
  destruct (Hwait s Hres) as [evs Hev].
  unfold x in Hres.
  rewrite (askClaude_result env question phone uid st w evs Hev) in Hres.
  apply promise_run_resolved in Hres as (pre & rest & _ & _ & Hne & ->).
  split; [|apply trim_ends].
  intros Hnil. rewrite Hnil in Hne. discriminate.
Qed.

(** X7: the child is started as ["claude"] with [USER_ID] set to the
    user id of the dispatch and [HOME] set to the [HOME] of the server
    process, or to ["/home/claude"] when that is unset or empty. *)
Theorem askClaude_child_environment st w (h : option jsstring) :
  let x := run env (askClaude question phone uid) st w in
  homes (trace x) = [h] ->
  exists args,
    spawn_calls (trace x) =
      [(lit "claude", args,
        match h with
        | Some (c :: home) => c :: home
        | _ => lit "/home/claude"
        end,
        uid)].
Proof.
  intros x Hh.
  destruct (askClaude_calls st w) as (_ & _ & _ & [(Hn & _)|Hsp] & _).
  - fold x in Hn. rewrite Hn in Hh. discriminate.
  - destruct Hsp as (path & h' & Hh' & _ & Hs). fold x in Hh', Hs.
    rewrite Hh in Hh'. injection Hh' as <-.
    eexists. rewrite Hs. repeat f_equal.
    destruct h as [[|c home]|]; reflexivity.
Qed.
End DispatcherMore.

(* ================================================================= *)
(** ** Further properties: the router *)

Ltac observer_app t1 :=
  induction t1 as [|[?|r a ?] t1 IH]; simpl; auto;
  destruct r; simpl; rewrite ?IH; auto;
  destruct a; simpl; rewrite ?IH; auto.

Lemma lookups_app t1 t2 : lookups (t1 ++ t2) = lookups t1 ++ lookups t2.
Proof. observer_app t1. Qed.

Lemma spawn_calls_app t1 t2 :
  spawn_calls (t1 ++ t2) = spawn_calls t1 ++ spawn_calls t2.
Proof. observer_app t1. Qed.

Lemma ops_app t1 t2 : ops (t1 ++ t2) = ops t1 ++ ops t2.
Proof. observer_app t1. Qed.

Lemma calls_app t1 t2 : calls (t1 ++ t2) = calls t1 ++ calls t2.
Proof. observer_app t1. Qed.

Lemma rejected_signals_app t1 t2 :
  rejected_signals (t1 ++ t2) = rejected_signals t1 ++ rejected_signals t2.
Proof. observer_app t1. Qed.


Lemma ops_console ls t : ops (console ls ++ t) = ops t.
Proof. induction ls; simpl; auto. Qed.

Lemma calls_console ls t : calls (console ls ++ t) = calls t.
Proof. induction ls; simpl; auto. Qed.

Lemma rejected_signals_console ls t :
  rejected_signals (console ls ++ t) = rejected_signals t.
Proof. induction ls; simpl; auto. Qed.

Lemma lookups_effects es : lookups (map EvDo es) = [].
Proof. induction es; simpl; auto. Qed.

Lemma rejected_texts_app t1 t2 :
  rejected_texts (t1 ++ t2) = rejected_texts t1 ++ rejected_texts t2.
Proof. observer_app t1. Qed.

Lemma rejected_texts_effects es : rejected_texts (map EvDo es) = [].
Proof. induction es; simpl; auto. Qed.

Lemma rejected_signals_effects es : rejected_signals (map EvDo es) = [].
Proof. induction es; simpl; auto. Qed.

Section RunMore.
Context {W : Type} (env : @Env W).

(** A body that writes no field ends in the state the rest of the
    system left at its last answer. *)
Lemma reads_only_final {R} (p : Prog R) :
  reads_only p ->
  forall st w, final (run env p st w) = resumed_state st (trace (run env p st w)).
Proof.
  induction 1 as [r|k Hk IH|e k Hk IH|r k Hk IH]; intros st w; simpl; auto.
Qed.

Lemma reads_only_undisturbed {R} (p : Prog R) :
  undisturbed env ->
  reads_only p ->
  forall st w, final (run env p st w) = st.
Proof.
  intros Hund. induction 1 as [r|k Hk IH|e k Hk IH|r k Hk IH]; intros st w;
    simpl; auto.
  rewrite IH. apply Hund.
Qed.

(** The dispatcher asks nothing of the lookup and nothing of the
    transport. *)
Lemma askClaude_foreign question phone uid st w :
  let x := run env (askClaude question phone uid) st w in
  lookups (trace x) = [] /\ rejected_signals (trace x) = [] /\
  rejected_texts (trace x) = [].
Proof.
  unfold askClaude, rejecting, try_catch, throw, get, ask, perform, call, bind. simpl.
  destruct (onGetMcpConfig st) as [g|]; simpl.
  - next_answer. destruct x as [path|e]; simpl; auto.
    next_answer. next_answer. destruct x0 as [[]|e]; simpl; auto.
    next_answer. rewrite run_settled. simpl.
    now rewrite lookups_effects, rejected_signals_effects, rejected_texts_effects.
  - next_answer. next_answer. destruct x0 as [[]|e]; simpl; auto.
    next_answer. rewrite run_settled. simpl.
    now rewrite lookups_effects, rejected_signals_effects, rejected_texts_effects.
Qed.
End RunMore.

Opaque askClaude lit substring0.

(** At the call of [askClaude]: all that is known of its run. *)
Ltac dispatch_calls :=
  rewrite !run_pbind; simpl;
  match goal with
  | |- context [run ?env (askClaude ?q ?p ?u) ?s ?w] =>
      let Ht := fresh "Htexts" in
      let Hp := fresh "Hpres" in
      let Hl := fresh "Hlooks" in
      let Hr := fresh "Hrej" in
      let Hs := fresh "Hspawn" in
      destruct (askClaude_run env q p u s w) as (Ht & Hp & _);
      let Hrt := fresh "Hrejt" in
      destruct (askClaude_foreign env q p u s w) as (Hl & Hr & Hrt);
      destruct (askClaude_calls env q p u s w) as (_ & _ & _ & Hs & _);
      destruct (run env (askClaude q p u) s w) as [ra fa wa ta];
      simpl in Ht, Hp, Hl, Hr, Hrt, Hs; simpl;
      rewrite <- ?app_assoc;
      rewrite ?texts_app, ?presences_app, ?lookups_app, ?rejected_signals_app,
        ?rejected_texts_app, ?spawn_calls_app, ?ops_app, ?spawned_app,
        ?Ht, ?Hp, ?Hl, ?Hr, ?Hrt; simpl
  end.

(** One step, also where the answer of the rest of the system is not
    looked at, only the state it leaves. *)
Ltac walk :=
  first
    [ step
    | match goal with
      | |- context [snd (fst (?env ?r ?s ?w0))] =>
          is_var s; is_var w0;
          let E := fresh "E" in
          destruct (env r s w0) as [[? ?] ?] eqn:E; simpl fst in *; simpl snd in *
      | |- context [snd (?env ?r ?s ?w0)] =>
          is_var s; is_var w0;
          let E := fresh "E" in
          destruct (env r s w0) as [[? ?] ?] eqn:E; simpl fst in *; simpl snd in *
      end; simpl ].

(** What an answer of the rest of the system is like when the fields are
    left alone and the transport accepts what it is handed. *)
Ltac steady Hund Hacc :=
  match goal with
  | E : ?env ?r ?s ?w0 = (?x, ?s', ?w') |- _ =>
      let H1 := fresh in
      let H2 := fresh in
      pose proof (Hund r s w0) as H1;
      pose proof (Hacc r s w0) as H2;
      rewrite E in H1, H2; simpl in H1, H2; clear E;
      subst s';
      match type of H2 with
      | ?a = _ => first [discriminate H2 | subst a | injection H2 as ->]
      | _ => clear H2
      end
  end.

Section RouterMore.
Context {W : Type} (env : @Env W).
Variables jid phone text : jsstring.

(** With no lookup wired, every sender is unregistered. *)
Lemma process_no_lookup st w :
  onUserLookup st = None ->
  let y := run env (process jid phone text) st w in
  spawned (trace y) = [] /\
  lookups (trace y) = [] /\
  match socket st with
  | Some s =>
      (texts (trace y) = [(jid, registration_message phone)] \/
       texts (trace y) = [(jid, registration_message phone); (jid, failure_message)]) /\
      (rejected_texts (trace y) = [] ->
       texts (trace y) = [(jid, registration_message phone)]) /\
      (texts (trace y) = [(jid, registration_message phone); (jid, failure_message)] ->
       exists more,
         rejected_texts (trace y) = (jid, registration_message phone) :: more)
  | None => trace y = []
  end.
Proof.
  intros Hlook. unfold_process. rewrite Hlook. simpl.
  repeat step; auto.
  all: repeat split; auto; try discriminate; intros _; eauto.
Qed.


(** A lookup that throws ends in the [catch] block. *)
Lemma process_lookup_throws st w asked e st1 :
  let y := run env (process jid phone text) st w in
  lookups (trace y) = [(asked, Threw e, st1)] ->
  asked = phone /\
  spawned (trace y) = [] /\
  presences (trace y) = [] /\
  texts (trace y) =
    (if is_some (socket st1) then [(jid, failure_message)] else []) /\
  In (EvDo (ConsoleError (lit "[WhatsApp] Error handling message:") e)) (trace y).
Proof.
  unfold_process. repeat walk; try discriminate.
  all: try dispatch_calls.
  all: repeat walk; try discriminate.
  all: intros [= <- <- <-].
  all: match goal with
       | H : socket ?x = _ |- context [socket ?x] => rewrite H
       end; simpl.
  all: repeat split; auto 10 using in_eq, in_cons.
Qed.


(** Whatever the router hands to the transport concerns the
    conversation of the message. *)
Lemma process_addressed st w :
  Forall (addressed jid) (ops (trace (run env (process jid phone text) st w))).
Proof.
  unfold_process. repeat walk.
  all: try dispatch_calls.
  all: repeat walk.
  all: try (destruct Hspawn as [(_ & _ & -> & _)|(path & h & _ & -> & _)]; simpl).
  all: repeat constructor.
Qed.

(** A presence call the transport rejects ends in the [catch] block:
    the response is not sent. *)
Lemma process_rejected_signal st w sig more :
  let y := run env (process jid phone text) st w in
  rejected_signals (trace y) = sig :: more ->
  (texts (trace y) = [] \/ texts (trace y) = [(jid, failure_message)]) /\
  (sig <> Some Paused -> spawned (trace y) = []).
Proof.
  unfold_process. repeat walk; try discriminate.
  all: try dispatch_calls.
  all: repeat walk; try discriminate.
  all: intros [= <- <-].
  all: split; [auto | intros Hsig; try reflexivity; try congruence].
Qed.

(** The [try] statement throws only when the transport rejects the
    fallback message. *)
Lemma process_throws st w e :
  let y := run env (process jid phone text) st w in
  result y = Threw e ->
  exists before, rejected_texts (trace y) = before ++ [(jid, failure_message)].
Proof.
  unfold_process. repeat walk; try discriminate.
  all: try dispatch_calls.
  all: repeat walk; try discriminate.
  all: intros _.
  all: first [ now exists [] | now eexists [_] | now eexists [_; _] ].
Qed.

Lemma process_reads_only : reads_only (process jid phone text).
Proof.
  unfold process, try_catch, lookupUser, sendMessage, presenceSubscribe,
    sendPresenceUpdate, get, perform, ask, call, bind, ret.
  repeat first
    [ apply askClaude_reads_only
    | apply reads_only_pbind; intros
    | constructor; intros
    | match goal with
      | |- reads_only (match ?x with _ => _ end) => destruct x
      | |- reads_only (if ?b then _ else _) => destruct b
      end ].
Qed.

Section Steady.
Hypothesis Hund : undisturbed env.
Hypothesis Hacc : accepting env.

(** With a session handle that stays, a transport that accepts what it
    is handed, a registered sender and a dispatch that resolves: the
    operations of the router, in order. *)
Lemma process_in_order st w s asked r st1 pre v post :
  let y := run env (process jid phone text) st w in
  socket st = Some s ->
  lookups (trace y) = [(asked, Returned (Some r), st1)] ->
  truthy (userId r) = true ->
  until_settled (trace y) = Some (pre, Returned v, post) ->
  ops (trace y) =
    [OpSubscribe jid; OpPresence Composing jid; OpSpawn (userId r);
     OpPresence Paused jid; OpText jid v] /\
  result y = Returned tt.
Proof.
  intros y Hsock. unfold y. clear y. unfold_process.
  repeat (rewrite ?Hsock; simpl; walk; repeat steady Hund Hacc; try discriminate).
  all: rewrite !run_pbind; simpl.
  all: match goal with
       | |- context [run ?env (askClaude ?q ?p ?u) ?s ?w] =>
           destruct (askClaude_run env q p u s w) as (Ht & Hp & Hc);
           destruct (askClaude_foreign env q p u s w) as (Hl & _ & _);
           destruct (askClaude_calls env q p u s w) as (_ & _ & _ & Hs & Hwait);
           pose proof (reads_only_undisturbed env _ Hund
                         (askClaude_reads_only q p u) s w) as Hfa;
           destruct (run env (askClaude q p u) s w) as [ra fa wa ta];
           simpl in Ht, Hp, Hc, Hl, Hs, Hwait, Hfa; simpl; subst fa;
           destruct Hc as (pa & Hu & Hf & Htpa);
           rewrite <- ?app_assoc;
           rewrite ?(until_settled_app_some _ _ _ _ _ Hu);
           rewrite ?lookups_app, ?ops_app, ?Hl; simpl
       end.
  all: repeat (rewrite ?Hsock; simpl; walk; repeat steady Hund Hacc; try discriminate).
  intros [= <- <- <-] Hid [= <- <- <-].
  split; [|reflexivity].
  destruct Hs as [(_ & _ & _ & Hnone)|(path & h & _ & -> & _)].
  - destruct (Hwait _ eq_refl) as [evs Hevs]. congruence.
  - unfold or_else. rewrite Hid. reflexivity.
Qed.
End Steady.
End RouterMore.

Opaque process.

Section RouterExtras.
Context {W : Type} (env : @Env W).

Lemma handleMessage_reads_only msg : reads_only (handleMessage msg).
Proof.
  unfold handleMessage, perform, bind, ret.
  repeat first
    [ apply process_reads_only
    | apply reads_only_pbind; intros
    | constructor; intros
    | match goal with
      | |- reads_only (match ?x with _ => _ end) => destruct x
      | |- reads_only (if ?b then _ else _) => destruct b
      end ].
Qed.

Lemma handleMessages_reads_only messages : reads_only (handleMessages messages).
Proof.
  induction messages as [|msg rest IH]; simpl; [constructor|].
  unfold bind, ask, ret.
  repeat first
    [ apply IH
    | apply handleMessage_reads_only
    | apply reads_only_pbind; intros
    | constructor; intros
    | match goal with
      | |- reads_only (match ?x with _ => _ end) => destruct x
      | |- reads_only (if ?b then _ else _) => destruct b
      end ].
Qed.

(** X8: a message without a conversation address, from a group, from
    an address of neither form, or without text is dropped: the handler
    returns normally, asks nothing of the lookup, the transport or the
    backend, and leaves the fields alone; for the first two it does not
    even write to the console. *)
Theorem handleMessage_dropped msg st w :
  remoteJid (key msg) = None \/
  includes group_marker (address msg) = true \/
  resolve_phone (address msg) = None \/
  message_text msg = [] ->
  let x := run env (handleMessage msg) st w in
  result x = Returned tt /\ final x = st /\ world x = w /\
  calls (trace x) = [] /\
  (remoteJid (key msg) = None \/ includes group_marker (address msg) = true ->
   trace x = []).
Proof.
  intros Hdrop x.
  assert (Hsilent : remoteJid (key msg) = None \/
                    includes group_marker (address msg) = true -> trace x = []).
  { unfold x, handleMessage, address.
    intros [->|Hg]; [reflexivity|]. rewrite Hg, orb_true_r. reflexivity. }
  destruct (handleMessage_cases env msg st w) as [(phone & text & He)|[lines Hl]].
  - exfalso. destruct He as (Hjid & _ & Hg & Hp & _ & Ht & Htt).
    unfold address in *. rewrite Hjid in *. simpl in *.
    destruct Hdrop as [H|[H|[H|H]]]; try congruence.
    rewrite H in Ht. subst text. discriminate.
  - split; [|split; [|split; [|split]]]; try exact Hsilent.
    all: unfold x; rewrite Hl; simpl; auto.
    rewrite <- (app_nil_r (console lines)), calls_console. reflexivity.
Qed.

(** X9: while no lookup is wired, every sender is treated as not
    registered: no lookup, no subprocess.  With a session handle the
    registration instructions are sent; the fallback follows them only
    if the transport rejected them, and nothing else is sent.  Without
    a session handle nothing is sent. *)
Theorem handleMessage_no_lookup msg jid phone text st w :
  eligible msg jid phone text ->
  onUserLookup st = None ->
  let x := run env (handleMessage msg) st w in
  spawned (trace x) = [] /\
  lookups (trace x) = [] /\
  match socket st with
  | Some s =>
      (texts (trace x) = [(jid, registration_message phone)] \/
       texts (trace x) = [(jid, registration_message phone); (jid, failure_message)]) /\
      (rejected_texts (trace x) = [] ->
       texts (trace x) = [(jid, registration_message phone)]) /\
      (texts (trace x) = [(jid, registration_message phone); (jid, failure_message)] ->
       exists more,
         rejected_texts (trace x) = (jid, registration_message phone) :: more)
  | None => texts (trace x) = []
  end.
Proof.
  intros He Hlook.
  destruct (handleMessage_eligible env msg _ _ _ st w He) as [lines Hl].
  rewrite Hl. simpl.
  rewrite spawned_console, lookups_console, texts_console, rejected_texts_console.
  destruct (process_no_lookup env jid phone text st w Hlook) as (Hs & Hlk & Ht).
  repeat split; auto.
  destruct (socket st); auto. now rewrite Ht.
Qed.


(** X11: when the lookup itself throws, the error is written to the
    console, no presence is signalled and no subprocess started, and the
    sender gets the fixed failure message if a session handle exists
    when the lookup has failed. *)
Theorem handleMessage_lookup_throws msg st w asked e st1 :
  let x := run env (handleMessage msg) st w in
  lookups (trace x) = [(asked, Threw e, st1)] ->
  spawned (trace x) = [] /\
  presences (trace x) = [] /\
  texts (trace x) =
    (if is_some (socket st1) then [(address msg, failure_message)] else []) /\
  In (EvDo (ConsoleError (lit "[WhatsApp] Error handling message:") e)) (trace x).
Proof.
  destruct (handleMessage_cases env msg st w) as [(phone & text & He)|[lines Hl]].
  - destruct (handleMessage_eligible env msg _ _ _ st w He) as [lines Hl].
    rewrite Hl. simpl.
    rewrite lookups_console, spawned_console, presences_console, texts_console.
    intros Hlook.
    destruct (process_lookup_throws env _ _ _ st w _ _ _ Hlook)
      as (_ & Hs & Hp & Ht & Hin).
    repeat split; auto. apply in_or_app. now right.
  - rewrite Hl. simpl. rewrite <- (app_nil_r (console lines)), lookups_console.
    discriminate.
Qed.


(** X13: every presence subscription, presence signal and text the
    router hands to the transport while it handles a message goes to the
    conversation address of that message. *)
Theorem handleMessage_addressed msg st w :
  Forall (addressed (address msg)) (ops (trace (run env (handleMessage msg) st w))).
Proof.
  destruct (handleMessage_cases env msg st w) as [(phone & text & He)|[lines Hl]].
  - destruct (handleMessage_eligible env msg _ _ _ st w He) as [lines Hl].
    rewrite Hl. simpl. rewrite ops_console. apply process_addressed.
  - rewrite Hl. simpl. rewrite <- (app_nil_r (console lines)), ops_console.
    constructor.
Qed.

(** X14: with a session handle that stays, a transport that accepts
    what it is handed, a registered sender and a dispatch that
    resolves, the router does, in this order: presence subscription,
    "composing", start of the subprocess for the user, "paused", the
    response; it returns normally and leaves the fields as they were. *)
Theorem handleMessage_in_order msg st w s asked r st1 pre v post :
  undisturbed env ->
  accepting env ->
  let x := run env (handleMessage msg) st w in
  socket st = Some s ->
  lookups (trace x) = [(asked, Returned (Some r), st1)] ->
  truthy (userId r) = true ->
  until_settled (trace x) = Some (pre, Returned v, post) ->
  ops (trace x) =
    [OpSubscribe (address msg); OpPresence Composing (address msg);
     OpSpawn (userId r);
     OpPresence Paused (address msg); OpText (address msg) v] /\
  result x = Returned tt /\
  final x = st.
Proof.
  intros Hund Hacc x Hsock.
  assert (Hfin : final x = st)
    by (apply reads_only_undisturbed; [exact Hund | apply handleMessage_reads_only]).
  revert Hfin. unfold x. clear x.
  destruct (handleMessage_cases env msg st w) as [(phone & text & He)|[lines Hl]].
  - destruct (handleMessage_eligible env msg _ _ _ st w He) as [lines Hl].
    rewrite Hl. simpl.
    rewrite lookups_console, ops_console, until_settled_console.
    intros Hfin Hlook Hid.
    destruct (until_settled (trace (run env (process (address msg) phone text) st w)))
      as [[[p o] q]|] eqn:Hu; [|discriminate].
    intros [= <- -> <-].
    destruct (process_in_order env _ _ _ Hund Hacc st w _ _ _ _ _ _ _
                Hsock Hlook Hid Hu) as (Hops & Hres).
    auto.
  - rewrite Hl. simpl. rewrite <- (app_nil_r (console lines)), lookups_console.
    discriminate.
Qed.

(** X15: neither [handleMessage] nor the [messages.upsert] listener
    writes a field of the service: the fields after the run are those
    the rest of the system left behind at the last [await]. *)
Theorem router_writes_no_field :
  (forall msg st w,
      let x := run env (handleMessage msg) st w in
      final x = resumed_state st (trace x)) /\
  (forall messages type st w,
      let x := run env (on_messages_upsert messages type) st w in
      final x = resumed_state st (trace x)).
Proof.
  split.
  - intros msg st w. apply reads_only_final, handleMessage_reads_only.
  - intros messages type st w. apply reads_only_final.
    unfold on_messages_upsert.
    destruct (negb (eqb type (lit "notify")));
      [constructor | apply handleMessages_reads_only].
Qed.

(** X16: the [messages.upsert] listener does nothing at all for a
    batch whose type is not ["notify"], and nothing for the messages
    without content or sent by the account itself. *)
Theorem upsert_filter messages type st w :
  eqb type (lit "notify") = false \/ forallb skipped messages = true ->
  run env (on_messages_upsert messages type) st w = mkRan (Returned tt) st w [].
Proof.
  unfold on_messages_upsert. intros [->|Hskip]; [reflexivity|].
  destruct (negb (eqb type (lit "notify"))); [reflexivity|].
  induction messages as [|msg rest IH]; [reflexivity|].
  simpl in Hskip. apply andb_true_iff in Hskip as [Hm Hrest].
  specialize (IH Hrest). unfold skipped in Hm.
  simpl handleMessages. unfold bind, ret.
  destruct (content msg) as [c|]; simpl in *.
  - rewrite Hm. simpl. rewrite IH. reflexivity.
  - rewrite IH. reflexivity.
Qed.

(** X17: [handleMessage] throws only when the transport rejects the
    fallback message sent from the [catch] block; and when it throws,
    the [messages.upsert] listener stops there: the remaining messages
    of the batch are not handled. *)
Theorem upsert_aborts_on_throw msg rest st w e :
  let x := run env (handleMessage msg) st w in
  let b := run env (on_messages_upsert (msg :: rest) (lit "notify")) st w in
  skipped msg = false ->
  result x = Threw e ->
  (exists before,
      rejected_texts (trace x) = before ++ [(address msg, failure_message)]) /\
  result b = Threw e /\ trace b = trace x /\ final b = final x.
Proof.
  intros x b Hskip Hres. split.
  - revert Hres. unfold x.
    destruct (handleMessage_cases env msg st w) as [(phone & text & He)|[lines Hl]].
    + destruct (handleMessage_eligible env msg _ _ _ st w He) as [lines Hl].
      rewrite Hl. simpl. rewrite rejected_texts_console.
      apply process_throws.
    + rewrite Hl. discriminate.
  - unfold b, on_messages_upsert. 
    replace (eqb (lit "notify") (lit "notify")) with true by reflexivity.
    simpl negb. cbv iota. simpl handleMessages.
    unfold skipped in Hskip. apply orb_false_iff in Hskip as [Hc Hme].
    destruct (content msg) as [c|]; [|discriminate]. rewrite Hme.
    unfold x in *. unfold bind. rewrite !run_pbind. cbv zeta.
    rewrite Hres. simpl. rewrite !app_nil_r. auto.
Qed.

(** X18: once the transport has rejected a presence call, the response
    of the backend is not sent: the only text that can follow is the
    fallback message; and unless the rejected call was the "paused"
    signal, no subprocess was started. *)
Theorem handleMessage_rejected_signal msg st w sig more :
  let x := run env (handleMessage msg) st w in
  rejected_signals (trace x) = sig :: more ->
  (texts (trace x) = [] \/ texts (trace x) = [(address msg, failure_message)]) /\
  (sig <> Some Paused -> spawned (trace x) = []).
Proof.
  destruct (handleMessage_cases env msg st w) as [(phone & text & He)|[lines Hl]].
  - destruct (handleMessage_eligible env msg _ _ _ st w He) as [lines Hl].
    rewrite Hl. simpl.
    rewrite rejected_signals_console, texts_console, spawned_console.
    apply process_rejected_signal.
  - rewrite Hl. simpl.
    rewrite <- (app_nil_r (console lines)), rejected_signals_console.
    discriminate.
Qed.
End RouterExtras.

Transparent askClaude lit substring0 process.

(* ================================================================= *)
(** ** Further properties: the session supervisor *)

Lemma split0_plain (user rest : jsstring) :
  forallb plain user = true ->
  (rest = [] \/ exists c tail, rest = c :: tail /\ plain c = false) ->
  split0 at_sign (split0 colon (user ++ rest)) = user.
Proof.
  intros Hplain Hrest. induction user as [|a user IH]; simpl app.
  - destruct Hrest as [->|(c & tail & -> & Hc)]; [reflexivity|].
    rewrite split0_cons. destruct (N.eqb c colon) eqn:Hcolon; [reflexivity|].
    rewrite split0_cons. unfold plain in Hc. rewrite Hcolon in Hc. simpl in Hc.
    apply negb_false_iff in Hc. now rewrite Hc.
  - simpl in Hplain. apply andb_true_iff in Hplain as [Ha Hu].
    unfold plain in Ha. apply andb_true_iff in Ha as [Hc Hs].
    apply negb_true_iff in Hc, Hs.
    rewrite split0_cons, Hc, split0_cons, Hs. f_equal. now apply IH.
Qed.

(** One answer of a rest-of-the-system that leaves the fields alone. *)
Ltac undisturbed_answer Hund :=
  match goal with
  | |- context [?env ?r ?s ?w0] =>
      is_var w0;
      match type of env with Env => idtac end;
      let H := fresh in
      let x := fresh "x" in
      let s' := fresh "s" in
      let w' := fresh "w" in
      pose proof (Hund r s w0) as H;
      destruct (env r s w0) as [[x s'] w'];
      simpl in H; subst s'; simpl
  end.

Section SupervisorExtras.
Context {W : Type} (env : @Env W).

(** X19: when [initialize] fails (the directory cannot be made, the
    credential store cannot be read, the socket cannot be created), the
    [initializing] flag stays set and no session handle is stored, so
    every later [initialize] returns at once and does nothing; only
    [disconnect], which without a session handle asks nothing of the
    transport, clears the flag. *)
Theorem initialize_failure_sticks st w e :
  undisturbed env ->
  socket st = None ->
  initializing st = false ->
  let x := run env initialize st w in
  result x = Threw e ->
  isInitializing (final x) = true /\
  socket (final x) = None /\
  subscriptions (trace x) = [] /\
  (forall w', run env initialize (final x) w' = mkRan (Returned tt) (final x) w' []) /\
  (forall w',
      let d := run env disconnect (final x) w' in
      result d = Returned tt /\ calls (trace d) = [] /\
      isInitializing (final d) = false).
Proof.
  intros Hund Hs Hi x.
  assert (Hstuck : result x = Threw e ->
                   final x = set_initializing true st /\ subscriptions (trace x) = []).
  { unfold x, initialize, get, modify, perform, ask, call, bind, ret.
    simpl. rewrite Hs, Hi. simpl.
    undisturbed_answer Hund. destruct x0; simpl.
    - undisturbed_answer Hund. destruct x0 as [auth|e0]; simpl; [|auto].
      undisturbed_answer Hund. destruct x0 as [s|e0]; simpl; [discriminate|auto].
    - undisturbed_answer Hund. destruct x0 as [[]|e0]; simpl; [|auto].
      undisturbed_answer Hund. destruct x0 as [auth|e0]; simpl; [|auto].
      undisturbed_answer Hund. destruct x0 as [s|e0]; simpl; [discriminate|auto]. }
  intros Hres. destruct (Hstuck Hres) as [-> Hsubs].
  unfold isInitializing, initialize, disconnect, get, modify, bind, ret.
  destruct st; simpl in *; subst. auto 10.
Qed.

(** X20: an [initialize] that completes does exactly this, in this
    order: it asks the file system whether the credential directory
    exists and makes it if and only if the answer is no, reads the
    credentials, creates a socket from the credentials it read, stores
    the socket it was given as the session handle, registers the three
    listeners on that socket, and clears the [initializing] flag; it
    writes no other field. *)
Theorem initialize_success st w :
  socket st = None ->
  initializing st = false ->
  let x := run env initialize st w in
  result x = Returned tt ->
  exists present auth s st1 st2 st3 st4,
    trace x =
      EvDo (ConsoleLog (lit "[WhatsApp] Initializing with Baileys..."))
      :: EvCall AuthDirExists present st1
      :: (if present : bool then []
          else [EvCall AuthDirMkdir (Returned tt) st2])
      ++ [EvCall UseMultiFileAuthState (Returned auth) st3;
          EvCall (MakeWASocket auth) (Returned s) st4;
          EvDo (EvOn s (lit "creds.update") LSaveCreds);
          EvDo (EvOn s (lit "connection.update") LConnectionUpdate);
          EvDo (EvOn s (lit "messages.upsert") LMessagesUpsert)] /\
    final x = set_initializing false (set_socket (Some s) st4).
Proof.
  intros Hs Hi. unfold initialize, get, modify, perform, ask, call, bind, ret.
  simpl. rewrite Hs, Hi. simpl.
  destruct (env AuthDirExists _ _) as [[present st1] w1]; simpl.
  destruct present; simpl.
  - destruct (env UseMultiFileAuthState _ _) as [[[auth|e] st2] w2]; simpl;
      [|discriminate].
    destruct (env (MakeWASocket auth) _ _) as [[[s|e] st3] w3]; simpl;
      [|discriminate].
    intros _. exists true, auth, s, st1, st1, st2, st3. auto.
  - destruct (env AuthDirMkdir _ _) as [[[[]|e] st2] w2]; simpl; [|discriminate].
    destruct (env UseMultiFileAuthState _ _) as [[[auth|e] st3] w3]; simpl;
      [|discriminate].
    destruct (env (MakeWASocket auth) _ _) as [[[s|e] st4] w4]; simpl;
      [|discriminate].
    intros _. exists false, auth, s, st1, st2, st3, st4. auto.
Qed.

(** X21: on a connection-open event the service becomes connected, the
    cached pairing code is dropped (so the reported status carries
    none), the last event emitted is ["ready"], and the phone number
    becomes the user part of the id the socket reports for its user;
    when there is no session handle or the socket reports no user, the
    phone number is left as it was. *)
Theorem connection_open_status loggedOut u st w :
  connection u = Some ConnOpen ->
  undisturbed env ->
  let x := run env (on_connection_update loggedOut u) st w in
  result x = Returned tt /\
  connected (getStatus (final x)) = true /\
  qrCode (final x) = None /\
  status_qrCode (getStatus (final x)) = None /\
  socket (final x) = socket st /\
  (exists before, emitted (trace x) = before ++ [(lit "ready", None)]) /\
  phoneNumber (getStatus (final x)) =
    match user_ids (trace x) with
    | Some id :: _ => Some (split0 at_sign (split0 colon id))
    | _ => phoneNumber (status st)
    end.
Proof.
  intros Hc Hund.
  unfold on_connection_update, getStatus, get, modify, perform, ask, bind, ret.
  rewrite Hc.
  destruct (truthy_opt (qr u)); simpl.
  all: destruct (socket st) as [s|] eqn:Hs; simpl.
  all: try undisturbed_answer Hund.
  all: try (destruct x as [id|]; simpl).
  all: rewrite ?Hs.
  all: repeat split; auto.
  all: first [ now exists [] | now eexists [_] ].
Qed.

(** X22: the phone number taken from a user id is its text before the
    first [':'] or ['@']. *)
Theorem phone_number_of_user_id (user rest : jsstring) :
  forallb plain user = true ->
  (rest = [] \/ exists c tail, rest = c :: tail /\ plain c = false) ->
  split0 at_sign (split0 colon (user ++ rest)) = user.
Proof. apply split0_plain. Qed.

(** X23: an update that is neither a close nor an open: with a
    non-empty pairing code the code is cached and emitted as ["qr"],
    and the reported status carries it exactly when the service is not
    connected; without one the update changes nothing and emits
    nothing.  No call is made either way. *)
Theorem pairing_code_update loggedOut u st w :
  connection u <> Some ConnClose ->
  connection u <> Some ConnOpen ->
  let x := run env (on_connection_update loggedOut u) st w in
  result x = Returned tt /\
  calls (trace x) = [] /\
  (truthy_opt (qr u) = true ->
   final x = set_qrCode (qr u) st /\
   emitted (trace x) = [(lit "qr", qr u)] /\
   status_qrCode (getStatus (final x)) =
     (if connected (status st) then None else qr u)) /\
  (truthy_opt (qr u) = false -> final x = st /\ trace x = []).
Proof.
  intros Hclose Hopen.
  unfold on_connection_update, getStatus, get, modify, perform, bind, ret.
  destruct (connection u) as [[| |]|]; try congruence.
  all: destruct (truthy_opt (qr u)) eqn:Hq; simpl.
  all: repeat split; try discriminate; auto.
  all: destruct st; simpl; rewrite ?Hq; reflexivity.
Qed.


(** X25: [disconnect] asks the transport to log out exactly when a
    session handle exists.  If that succeeds, or there was no handle,
    the service is back in its initial state but for the two wired
    collaborators, which are kept; if the logout throws, [disconnect]
    throws and every field, the session handle included, is as
    before. *)
Theorem disconnect_outcome st w :
  undisturbed env ->
  let d := run env disconnect st w in
  calls (trace d) =
    match socket st with Some s => [SocketLogout s] | None => [] end /\
  (result d = Returned tt ->
   final d = mkSvc None initial_status None false
                   (onUserLookup st) (onGetMcpConfig st)) /\
  (forall e, result d = Threw e -> final d = st /\ is_some (socket st) = true).
Proof.
  intros Hund. unfold disconnect, get, modify, call, bind, ret. simpl.
  destruct (socket st) as [s|] eqn:Hs; simpl.
  - undisturbed_answer Hund. destruct x as [[]|e]; simpl.
    + repeat split; congruence.
    + repeat split; congruence.
  - repeat split; try congruence.
    intros _. destruct st; simpl in *; subst; reflexivity.
Qed.

(** X26: the collaborators the host wires are the ones asked: after
    [setUserLookup f] the router puts the resolved identifier of an
    eligible message to [f] before anything else, and after
    [setMcpConfigGenerator g] a dispatch asks [g] for the configuration
    path before anything else. *)
Theorem wired_collaborators_are_asked st w f g msg jid phone text uid :
  eligible msg jid phone text ->
  (exists rest,
      calls (trace (run env (setUserLookup f ;; handleMessage msg) st w))
      = UserLookup f phone :: rest) /\
  (exists rest,
      calls (trace (run env (setMcpConfigGenerator g ;; askClaude text phone uid)
                        st w))
      = McpConfigGenerator g :: rest).
Proof.
  intros He. split.
  - unfold setUserLookup, modify, bind. simpl.
    destruct (handleMessage_eligible env msg _ _ _
                (set_onUserLookup (Some f) st) w He) as [lines Hl].
    rewrite Hl. simpl. rewrite calls_console.
    unfold process, try_catch, lookupUser, get, call, bind. simpl.
    rewrite !run_pbind. simpl. eauto.
  - unfold setMcpConfigGenerator, modify, bind, askClaude, get, call. simpl.
    eauto.
Qed.
End SupervisorExtras.

(* ================================================================= *)
(** ** Concrete runs: the further properties at work *)

Lemma scripted_undisturbed sc :
  (forall r, connection_lost_during sc r = false) -> undisturbed (scripted sc).
Proof. intros H r st w. unfold scripted. simpl. now rewrite H. Qed.

Lemma staged_undisturbed su sc :
  (forall r, connection_lost_during sc r = false) -> undisturbed (staged su sc).
Proof.
  intros H r st w. destruct r; try reflexivity; unfold staged, scripted; simpl;
    now rewrite H.
Qed.

Lemma scripted_accepting sc :
  send_answer sc = Returned tt -> accepting (scripted sc).
Proof. intros H r st w. destruct r; simpl; auto. Qed.

Lemma sample_message_eligible :
  eligible sample_message sample_jid sample_phone (lit "status?").
Proof. unfold eligible. repeat split. Qed.

Lemma askClaude_error_event_witness :
  let x := run (scripted not_installed)
               (askClaude (lit "status?") sample_phone (lit "user-1"))
               connected_service tt in
  result x = Threw (mkError (lit "spawn claude ENOENT")) /\
  kills (trace x) = 0 /\
  kills (afterwards (trace x)) = 1.
Proof.
  apply (askClaude_error_event (scripted not_installed) (lit "status?") sample_phone
           (lit "user-1") connected_service tt
           [StderrData (lit "partial")] [Close (Some (-2)%Z)]
           (mkError (lit "spawn claude ENOENT"))); reflexivity.
Defined.

Lemma askClaude_generator_throws_witness :
  let x := run (scripted generator_failing)
               (askClaude (lit "status?") sample_phone (lit "user-1"))
               connected_service tt in
  result x = Threw (mkError (lit "ENOSPC")) /\
  spawned (trace x) = [] /\ timers (trace x) = [] /\ kills (trace x) = 0.
Proof.
  apply (askClaude_generator_throws (scripted generator_failing) (lit "status?")
           sample_phone (lit "user-1") connected_service tt (mkError (lit "ENOSPC"))).
  reflexivity.
Defined.

Lemma askClaude_response_trimmed_witness :
  lit "Project X is idle" <> [] /\
  (forall c, hd_error (lit "Project X is idle") = Some c -> isWhiteSpace c = false) /\
  (forall c, hd_error (rev (lit "Project X is idle")) = Some c ->
             isWhiteSpace c = false).
Proof.
  apply (askClaude_response_trimmed (scripted answered) (lit "status?") sample_phone
           (lit "user-1") connected_service tt).
  reflexivity.
Defined.

Lemma askClaude_child_environment_witness :
  exists args,
    spawn_calls (trace (run (scripted answered)
                            (askClaude (lit "status?") sample_phone (lit "user-1"))
                            connected_service tt)) =
    [(lit "claude", args, lit "/home/claude", lit "user-1")].
Proof.
  apply (askClaude_child_environment (scripted answered) (lit "status?") sample_phone
           (lit "user-1") connected_service tt None).
  reflexivity.
Defined.

Lemma handleMessage_dropped_witness :
  let x := run (scripted answered) (handleMessage group_message)
               connected_service tt in
  result x = Returned tt /\ final x = connected_service /\ world x = tt /\
  calls (trace x) = [] /\
  (remoteJid (key group_message) = None \/
   includes group_marker (address group_message) = true ->
   trace x = []).
Proof.
  apply (handleMessage_dropped (scripted answered) group_message connected_service tt).
  right. left. reflexivity.
Defined.

Lemma handleMessage_no_lookup_witness :
  let x := run (scripted answered) (handleMessage sample_message)
               (set_onUserLookup None connected_service) tt in
  spawned (trace x) = [] /\
  lookups (trace x) = [] /\
  (texts (trace x) = [(sample_jid, registration_message sample_phone)] \/
   texts (trace x) = [(sample_jid, registration_message sample_phone);
                      (sample_jid, failure_message)]) /\
  (rejected_texts (trace x) = [] ->
   texts (trace x) = [(sample_jid, registration_message sample_phone)]) /\
  (texts (trace x) = [(sample_jid, registration_message sample_phone);
                      (sample_jid, failure_message)] ->
   exists more,
     rejected_texts (trace x) = (sample_jid, registration_message sample_phone) :: more).
Proof.
  exact (handleMessage_no_lookup (scripted answered) sample_message sample_jid
           sample_phone (lit "status?") (set_onUserLookup None connected_service) tt
           sample_message_eligible eq_refl).
Defined.


Lemma handleMessage_lookup_throws_witness :
  let x := run (scripted lookup_failing) (handleMessage sample_message)
               connected_service tt in
  spawned (trace x) = [] /\
  presences (trace x) = [] /\
  texts (trace x) = [(address sample_message, failure_message)] /\
  In (EvDo (ConsoleError (lit "[WhatsApp] Error handling message:")
                         (mkError (lit "database is locked")))) (trace x).
Proof.
  exact (handleMessage_lookup_throws (scripted lookup_failing) sample_message
           connected_service tt sample_phone (mkError (lit "database is locked"))
           connected_service eq_refl).
Defined.


Lemma handleMessage_in_order_witness :
  let x := run (scripted answered) (handleMessage sample_message)
               connected_service tt in
  ops (trace x) =
    [OpSubscribe sample_jid; OpPresence Composing sample_jid;
     OpSpawn (lit "user-1");
     OpPresence Paused sample_jid; OpText sample_jid (lit "Project X is idle")] /\
  result x = Returned tt /\
  final x = connected_service.
Proof.
  intros x.
  assert (H : exists pre post,
             until_settled (trace x)
             = Some (pre, Returned (lit "Project X is idle"), post))
    by (vm_compute; eexists; eexists; reflexivity).
  destruct H as (pre & post & H).
  exact (handleMessage_in_order (scripted answered) sample_message
           connected_service tt 1 sample_phone sample_user connected_service
           pre _ post
           (scripted_undisturbed answered (fun _ => eq_refl))
           (scripted_accepting answered eq_refl)
           eq_refl eq_refl eq_refl H).
Defined.

Lemma upsert_filter_witness :
  run (scripted answered)
      (on_messages_upsert [own_message; empty_message] (lit "notify"))
      connected_service tt
  = mkRan (Returned tt) connected_service tt [].
Proof.
  apply (upsert_filter (scripted answered) [own_message; empty_message]
           (lit "notify") connected_service tt).
  right. reflexivity.
Defined.

Lemma upsert_aborts_on_throw_witness :
  let x := run (scripted all_failing) (handleMessage sample_message)
               connected_service tt in
  let b := run (scripted all_failing)
               (on_messages_upsert [sample_message; sample_message] (lit "notify"))
               connected_service tt in
  (exists before,
      rejected_texts (trace x)
      = before ++ [(address sample_message, failure_message)]) /\
  result b = Threw (mkError (lit "socket closed")) /\
  trace b = trace x /\ final b = final x.
Proof.
  apply (upsert_aborts_on_throw (scripted all_failing) sample_message
           [sample_message] connected_service tt (mkError (lit "socket closed")));
    reflexivity.
Defined.

Lemma handleMessage_rejected_signal_witness :
  let x := run (staged no_presence answered) (handleMessage sample_message)
               connected_service tt in
  (texts (trace x) = [] \/
   texts (trace x) = [(address sample_message, failure_message)]) /\
  (None <> Some Paused -> spawned (trace x) = []).
Proof.
  apply (handleMessage_rejected_signal (staged no_presence answered) sample_message
           connected_service tt None []).
  reflexivity.
Defined.

Lemma initialize_failure_sticks_witness :
  let x := run (staged broken_store answered) initialize new_service tt in
  isInitializing (final x) = true /\
  socket (final x) = None /\
  subscriptions (trace x) = [] /\
  (forall w', run (staged broken_store answered) initialize (final x) w'
              = mkRan (Returned tt) (final x) w' []) /\
  (forall w',
      let d := run (staged broken_store answered) disconnect (final x) w' in
      result d = Returned tt /\ calls (trace d) = [] /\
      isInitializing (final d) = false).
Proof.
  apply (initialize_failure_sticks (staged broken_store answered) new_service tt
           (mkError (lit "EACCES"))
           (staged_undisturbed broken_store answered (fun _ => eq_refl)));
    reflexivity.
Defined.

Lemma initialize_success_witness :
  let x := run (staged paired answered) initialize new_service tt in
  exists present auth s st1 st2 st3 st4,
    trace x =
      EvDo (ConsoleLog (lit "[WhatsApp] Initializing with Baileys..."))
      :: EvCall AuthDirExists present st1
      :: (if present : bool then []
          else [EvCall AuthDirMkdir (Returned tt) st2])
      ++ [EvCall UseMultiFileAuthState (Returned auth) st3;
          EvCall (MakeWASocket auth) (Returned s) st4;
          EvDo (EvOn s (lit "creds.update") LSaveCreds);
          EvDo (EvOn s (lit "connection.update") LConnectionUpdate);
          EvDo (EvOn s (lit "messages.upsert") LMessagesUpsert)] /\
    final x = set_initializing false (set_socket (Some s) st4).
Proof.
  apply (initialize_success (staged paired answered) new_service tt); reflexivity.
Defined.

Lemma connection_open_status_witness :
  let x := run (staged paired answered) (on_connection_update 401%Z connection_opened)
               (set_qrCode (Some (lit "2@AbCdEf")) connected_service) tt in
  result x = Returned tt /\
  connected (getStatus (final x)) = true /\
  qrCode (final x) = None /\
  status_qrCode (getStatus (final x)) = None /\
  socket (final x) = Some 1 /\
  (exists before, emitted (trace x) = before ++ [(lit "ready", None)]) /\
  phoneNumber (getStatus (final x)) = Some (lit "15551234567").
Proof.
  exact (connection_open_status (staged paired answered) 401%Z connection_opened
           (set_qrCode (Some (lit "2@AbCdEf")) connected_service) tt eq_refl
           (staged_undisturbed paired answered (fun _ => eq_refl))).
Defined.

Lemma phone_number_of_user_id_witness :
  split0 at_sign (split0 colon (lit "15551234567" ++ lit ":9@s.whatsapp.net"))
  = lit "15551234567".
Proof.
  apply phone_number_of_user_id; [reflexivity|].
  right. exists colon, (lit "9@s.whatsapp.net"). split; reflexivity.
Defined.

Lemma pairing_code_update_witness :
  let x := run (scripted answered) (on_connection_update 401%Z pairing_challenge)
               new_service tt in
  result x = Returned tt /\
  calls (trace x) = [] /\
  (truthy_opt (qr pairing_challenge) = true ->
   final x = set_qrCode (qr pairing_challenge) new_service /\
   emitted (trace x) = [(lit "qr", qr pairing_challenge)] /\
   status_qrCode (getStatus (final x)) = qr pairing_challenge) /\
  (truthy_opt (qr pairing_challenge) = false -> final x = new_service /\ trace x = []).
Proof.
  apply (pairing_code_update (scripted answered) 401%Z pairing_challenge
           new_service tt); discriminate.
Defined.


Lemma disconnect_outcome_witness :
  let d := run (staged stuck_logout answered) disconnect connected_service tt in
  calls (trace d) = [SocketLogout 1] /\
  (result d = Returned tt ->
   final d = mkSvc None initial_status None false (Some 7) (Some 8)) /\
  (forall e, result d = Threw e ->
             final d = connected_service /\ is_some (socket connected_service) = true).
Proof.
  exact (disconnect_outcome (staged stuck_logout answered) connected_service tt
           (staged_undisturbed stuck_logout answered (fun _ => eq_refl))).
Defined.

Lemma wired_collaborators_are_asked_witness :
  (exists rest,
      calls (trace (run (scripted answered)
                        (setUserLookup 3 ;; handleMessage sample_message)
                        new_service tt))
      = UserLookup 3 sample_phone :: rest) /\
  (exists rest,
      calls (trace (run (scripted answered)
                        (setMcpConfigGenerator 4 ;;
                         askClaude (lit "status?") sample_phone (lit "user-1"))
                        new_service tt))
      = McpConfigGenerator 4 :: rest).
Proof.
  exact (wired_collaborators_are_asked (scripted answered) new_service tt 3 4
           sample_message sample_jid sample_phone (lit "status?") (lit "user-1")
           sample_message_eligible).
Defined.
